(** * async-profiler: crash-safe memory probing (safeAccess.h) and the
      thread cursor / wake-up signal of the OS layer (os.h)

    A shallow embedding of [class SafeAccess] (src/safeAccess.h) and of
    [WAKEUP_SIGNAL], [class ThreadList] and the [DDD] trace macros
    (src/os.h).

    Conventions.
    - An unsigned integer of [n] bytes is a [Z] between 0 and [2^(8n) - 1]; the
      subtraction of two [uintptr_t] wraps around and is written out
      ([usub]).
    - Memory is byte addressed and partial: an address that is not mapped
      makes a dereference fault.
    - Code that dereferences runs in the monad [M]: it reads the memory, may
      fault, and logs every access it performs, so that statements of the
      form "performs exactly one load" or "performs no read" can be made.
    - The preprocessor conditionals of the source select on the compiled
      target; the target is an explicit argument and every [#if] chain is a
      [match] on it. *)

From Stdlib Require Import Strings.String Strings.Ascii DecimalString.
From Stdlib Require Import ZArith List Bool Lia.
From Stdlib Require Import Strings.Byte.
Import ListNotations.
Local Open Scope Z_scope.

(** ** Compiled target *)

(** The targets the [#if] chains of safeAccess.h tell apart.  [ARM] stands
    for [defined(__arm__) || defined(__thumb__)]; [OtherArch] for any target
    that defines none of the tested macros. *)
Inductive arch : Type :=
  | X86_64
  | I386
  | ARM
  | AARCH64
  | PPC64
  | OtherArch.

(** [__BYTE_ORDER__] *)
Inductive endianness : Type :=
  | LittleEndian
  | BigEndian.

(** What the compiler fixes for one build.  [sizeof_instruction_t] is
    [sizeof(instruction_t)]; the type is declared in arch.h, which is not
    part of the sources at hand, so its size is a parameter of the target. *)
Record target : Type := mkTarget {
  cpu : arch;
  byte_order : endianness;
  sizeof_uintptr_t : nat;
  sizeof_instruction_t : nat
}.

Definition arch_eqb (a b : arch) : bool :=
  match a, b with
  | X86_64, X86_64 | I386, I386 | ARM, ARM
  | AARCH64, AARCH64 | PPC64, PPC64 | OtherArch, OtherArch => true
  | _, _ => false
  end.

(** Number of values of an unsigned integer of [n] bytes. *)
Definition modulus (n : nat) : Z := 2 ^ (8 * Z.of_nat n).

Definition UINTPTR_MODULUS (t : target) : Z := modulus (sizeof_uintptr_t t).

(** Pointers are 4 or 8 bytes wide. *)
Definition target_ok (t : target) : bool :=
  Nat.eqb (sizeof_uintptr_t t) 4 || Nat.eqb (sizeof_uintptr_t t) 8.

(** [a - b] on [uintptr_t]. *)
Definition usub (t : target) (a b : Z) : Z := (a - b) mod UINTPTR_MODULUS t.

Definition is_uintptr (t : target) (a : Z) : bool :=
  (0 <=? a) && (a <? UINTPTR_MODULUS t).

(** ** Memory and byte order *)

Definition memory : Type := Z -> option byte.

Definition byte_to_Z (b : byte) : Z := Z.of_N (Byte.to_N b).

Definition byte_of_Z (z : Z) : byte :=
  match Byte.of_N (Z.to_N (z mod 256)) with
  | Some b => b
  | None => Byte.x00
  end.

Fixpoint read_bytes (m : memory) (a : Z) (n : nat) : option (list byte) :=
  match n with
  | O => Some []
  | S k =>
      match m a, read_bytes m (a + 1) k with
      | Some b, Some bs => Some (b :: bs)
      | _, _ => None
      end
  end.

Fixpoint decode_le (bs : list byte) : Z :=
  match bs with
  | [] => 0
  | b :: rest => byte_to_Z b + 256 * decode_le rest
  end.

Definition decode (e : endianness) (bs : list byte) : Z :=
  match e with
  | LittleEndian => decode_le bs
  | BigEndian => decode_le (rev bs)
  end.

Fixpoint encode_le (n : nat) (v : Z) : list byte :=
  match n with
  | O => []
  | S k => byte_of_Z v :: encode_le k (v / 256)
  end.

Definition encode (e : endianness) (n : nat) (v : Z) : list byte :=
  match e with
  | LittleEndian => encode_le n v
  | BigEndian => rev (encode_le n v)
  end.

(** The [n] bytes at [a] are mapped and are the representation of [v] in the
    target's byte order: "[a] points to readable memory containing [v]". *)
Definition holds (t : target) (m : memory) (a : Z) (n : nat) (v : Z) : Prop :=
  read_bytes m a n = Some (encode (byte_order t) n v).

(** [poke m a bs] is [m] with the bytes [bs] mapped from address [a] on. *)
Fixpoint poke (m : memory) (a : Z) (bs : list Z) : memory :=
  match bs with
  | [] => m
  | b :: rest =>
      fun x => if x =? a then Some (byte_of_Z b) else poke m (a + 1) rest x
  end.

Definition unmapped : memory := fun _ => None.

(** ** The access monad *)

Record access : Type := mkAccess { acc_addr : Z; acc_size : nat }.

(** [Segv]: the dereference raised a fault.  The source names no fault
    address, and the one the hardware reports depends on the platform, so the
    outcome carries none. *)
Inductive outcome (A : Type) : Type :=
  | Ok (a : A)
  | Segv.
Arguments Ok {A} a.
Arguments Segv {A}.

(** A computation reads the memory and yields its outcome together with the
    accesses it made, oldest first.  A faulting access is logged too. *)
Definition M (A : Type) : Type := memory -> outcome A * list access.

Definition ret {A} (a : A) : M A := fun _ => (Ok a, []).

Definition bind {A B} (c : M A) (k : A -> M B) : M B :=
  fun m =>
    match c m with
    | (Ok a, tr) => let (r, tr') := k a m in (r, tr ++ tr')
    | (Segv, tr) => (Segv, tr)
    end.

Notation "x <- c ;; k" := (bind c (fun x => k))
  (at level 61, c at next level, right associativity).

(** [*(T* )a] for an unsigned integer type [T] of [n] bytes. *)
Definition deref (t : target) (a : Z) (n : nat) : M Z :=
  fun m =>
    match read_bytes m a n with
    | Some bs => (Ok (decode (byte_order t) bs), [mkAccess a n])
    | None => (Segv, [mkAccess a n])
    end.

Definition result {A} (r : outcome A * list access) : outcome A := fst r.
Definition accesses {A} (r : outcome A * list access) : list access := snd r.

Definition NULL : Z := 0.

(** ** safeAccess.h *)

(** Entry addresses of the three probe functions, [(uintptr_t)load],
    [(uintptr_t)load32] and [(uintptr_t)loadPtr]; the linker chooses them. *)
Record layout : Type := mkLayout {
  load_entry : Z;
  load32_entry : Z;
  loadPtr_entry : Z
}.

Inductive probe : Type := Load | Load32 | LoadPtr.

Definition entry (L : layout) (p : probe) : Z :=
  match p with
  | Load => load_entry L
  | Load32 => load32_entry L
  | LoadPtr => loadPtr_entry L
  end.

(** What the declarations promise of an entry: it is an address, and it is
    [__attribute__((aligned(16)))].  The value of the cast
    [(uintptr_t)load] is taken to be that aligned address. *)
Definition entry_ok (t : target) (e : Z) : bool :=
  is_uintptr t e && (e mod 16 =? 0).

(** The three probes are distinct functions at aligned addresses. *)
Definition layout_ok (t : target) (L : layout) : bool :=
  entry_ok t (load_entry L) && entry_ok t (load32_entry L)
  && entry_ok t (loadPtr_entry L)
  && negb (load_entry L =? load32_entry L)
  && negb (load_entry L =? loadPtr_entry L)
  && negb (load32_entry L =? loadPtr_entry L).

(** [static void* load(void** ptr) { return *ptr; }] *)
Definition load (t : target) (ptr : Z) : M Z :=
  deref t ptr (sizeof_uintptr_t t).

(** [static u32 load32(u32* ptr, u32 default_value) { return *ptr; }] *)
Definition load32 (t : target) (ptr : Z) (default_value : Z) : M Z :=
  deref t ptr 4.

(** [static void* loadPtr(void** ptr, void* default_value) { return *ptr; }] *)
Definition loadPtr (t : target) (ptr : Z) (default_value : Z) : M Z :=
  deref t ptr (sizeof_uintptr_t t).

Definition skipLoad (t : target) (L : layout) (pc : Z) : M Z :=
  if usub t pc (load_entry L) <? 16 then
    match cpu t with
    | X86_64 =>
        v <- deref t pc 2 ;;
        ret (if v =? 0x8b48 then 3 else 0)
    | I386 =>
        v <- deref t pc 1 ;;
        ret (if v =? 0x8b then 2 else 0)
    | ARM =>
        v <- deref t pc (sizeof_instruction_t t) ;;
        ret (if Z.land v 0x0e50f000 =? 0x04100000 then 4 else 0)
    | AARCH64 =>
        v <- deref t pc (sizeof_instruction_t t) ;;
        ret (if Z.land v 0xffc0001f =? 0xf9400000 then 4 else 0)
    | _ => ret (Z.of_nat (sizeof_instruction_t t))
    end
  else ret 0.

Definition skipLoadArg (t : target) (L : layout) (pc : Z) : Z :=
  match cpu t with
  | AARCH64 =>
      if (usub t pc (load32_entry L) <? 16)
         || (usub t pc (loadPtr_entry L) <? 16)
      then 4 else 0
  | _ => 0
  end.

(** [&((const void** )sp)[i]] *)
Definition ptr_index (t : target) (sp : Z) (i : Z) : Z :=
  (sp + i * Z.of_nat (sizeof_uintptr_t t)) mod UINTPTR_MODULUS t.

Definition lastJavaPCFromStack (t : target) (lastJavaSP topSP : Z) : M Z :=
  match cpu t, byte_order t with
  | AARCH64, _ =>
      deref t (ptr_index t lastJavaSP (-1)) (sizeof_uintptr_t t)
  | PPC64, LittleEndian =>
      ret NULL
  | _, _ =>
      if lastJavaSP <? topSP then
        deref t (ptr_index t lastJavaSP (-1)) (sizeof_uintptr_t t)
      else ret NULL
  end.

(** ** The decode entries

    "Decode Entry: architecture-specific bit pattern + mask + byte-length
    describing how to recognize the load instruction at a given program
    counter and how many bytes the processor would have advanced past it."
    The documentation gives the shape of an entry and no numbers: the
    patterns, masks and lengths below are the constants of [skipLoad], put in
    that shape, so "the bytes match the load encoding" means that they match
    the code's own pattern under the code's own mask.  [skipLoad] above is
    written from the control flow of the code, and the theorems compare the
    two. *)
Record decode_entry : Type := mkDecodeEntry {
  de_width : nat;     (* bytes inspected at pc *)
  de_mask : Z;
  de_pattern : Z;
  de_length : Z       (* bytes to skip *)
}.

Definition decode_table (t : target) : option decode_entry :=
  match cpu t with
  | X86_64 => Some (mkDecodeEntry 2 0xffff 0x8b48 3)
  | I386 => Some (mkDecodeEntry 1 0xff 0x8b 2)
  | ARM => Some (mkDecodeEntry (sizeof_instruction_t t) 0x0e50f000 0x04100000 4)
  | AARCH64 => Some (mkDecodeEntry (sizeof_instruction_t t) 0xffc0001f 0xf9400000 4)
  | PPC64 | OtherArch => None
  end.

(** Do the bytes at [pc] match the entry?  [None] when they cannot be read. *)
Definition entry_matches (t : target) (d : decode_entry) (m : memory) (pc : Z)
  : option bool :=
  match read_bytes m pc (de_width d) with
  | Some bs =>
      Some (Z.land (decode (byte_order t) bs) (de_mask d) =? de_pattern d)
  | None => None
  end.

(** On a target without an entry no byte sequence is a recognised load. *)
Definition encoding_matches (t : target) (m : memory) (pc : Z) : option bool :=
  match decode_table t with
  | Some d => entry_matches t d m pc
  | None => Some false
  end.

(** The documented byte counts: 3 on x86_64, 2 on i386, 4 on arm and
    aarch64. *)
Definition documented_skip (a : arch) : Z :=
  match a with
  | X86_64 => 3
  | I386 => 2
  | ARM | AARCH64 => 4
  | PPC64 | OtherArch => 0
  end.

(** The probe window of an entry: the 16 bytes from the entry on. *)
Definition in_window (e pc : Z) : bool := (e <=? pc) && (pc <? e + 16).

Definition outside_all_windows (L : layout) (pc : Z) : bool :=
  negb (in_window (load_entry L) pc)
  && negb (in_window (load32_entry L) pc)
  && negb (in_window (loadPtr_entry L) pc).

(** ** os.h *)

(** The part of [<signal.h>] the header uses: the number the platform gives
    to [SIGIO]. *)
Record signal_h : Type := mkSignalH { SIGIO : Z }.

(** [const int WAKEUP_SIGNAL = SIGIO;] *)
Definition WAKEUP_SIGNAL (h : signal_h) : Z := SIGIO h.

Inductive ThreadState : Type :=
  | THREAD_UNKNOWN
  | THREAD_RUNNING
  | THREAD_SLEEPING.

(** The data members of [class ThreadList]. *)
Record ThreadList : Type := mkThreadList {
  _index : Z;
  _count : Z
}.

(** [ThreadList() : _index(0), _count(0) {}] *)
Definition ThreadList_new : ThreadList := mkThreadList 0 0.

Definition index (tl : ThreadList) : Z := _index tl.
Definition count (tl : ThreadList) : Z := _count tl.

Definition hasNext (tl : ThreadList) : bool := _index tl <? _count tl.

(** The pure virtual members.  A concrete list has a state [S] of its own
    that contains the base-class members; [next] and [update] are whatever
    the subclass makes them. *)
Class ThreadListImpl (St : Type) : Type := {
  base : St -> ThreadList;
  next : St -> Z * St;
  update : St -> St
}.

Inductive call : Type := CallNext | CallUpdate.

Definition do_call {St} `{ThreadListImpl St} (s : St) (c : call) : St :=
  match c with
  | CallNext => snd (next s)
  | CallUpdate => update s
  end.

Definition do_calls {St} `{ThreadListImpl St} (s : St) (cs : list call)
  : St :=
  fold_left do_call cs s.

(** ** os.h: the DDD trace macros

    The macros are modelled on the preprocessor's own terms.  A macro
    argument is its spelling, a [string]; an invocation of a variadic macro is
    the list of its arguments.  The operator [#] yields the spelling of the
    argument it is applied to, and [##] joins two spellings. *)

(** What the translation unit around the header contributes.  A parameter
    that is not an operand of [#] or [##] is replaced by its argument after
    that argument has been macro-expanded completely, and the tokens that
    result are split into arguments again, at their top-level commas, when
    they are handed to the next macro.  [expand_args wa] is the list of
    arguments that the written arguments [wa] become in this way.  The macros
    of the translation unit are not part of the header, so the function is a
    parameter; it is the identity where no written argument is or contains a
    macro name. *)
Record cpp_env : Type := mkCppEnv {
  expand_args : list string -> list string
}.

Definition no_macros : cpp_env := mkCppEnv (fun wa => wa).

(** The two macros of [<inttypes.h>] the formats use. *)
Record inttypes_h : Type := mkInttypesH { PRId64 : string; PRIxPTR : string }.

Record printf_call : Type := mkPrintf {
  pf_format : string;
  pf_args : list string
}.

(** What an invocation is replaced by: a [printf] call of the header; other
    tokens (one of the invocation's own arguments); or nothing well formed
    with the macros of the header alone: a macro given a number of arguments
    it does not take, or a pasted name that is no macro. *)
Inductive expansion : Type :=
  | Printf (c : printf_call)
  | Tokens (ts : string)
  | Ill_formed.

Definition of_call (o : option printf_call) : expansion :=
  match o with
  | Some c => Printf c
  | None => Ill_formed
  end.

Definition of_tokens (o : option string) : expansion :=
  match o with
  | Some ts => Tokens ts
  | None => Ill_formed
  end.

Definition newline : string := String "010"%char EmptyString.

(** An empty [__VA_ARGS__] followed by a comma still makes one (empty)
    argument. *)
Definition VA_ARGS (va : list string) : list string :=
  match va with
  | [] => [EmptyString]
  | _ => va
  end.

(** The arguments that [__VA_ARGS__] stands for in a replacement list. *)
Definition passed (e : cpp_env) (wa : list string) : list string :=
  VA_ARGS (expand_args e wa).

Definition INT64_FORMAT (h : inttypes_h) : string := ("%" ++ PRId64 h)%string.
Definition PTR_FORMAT (h : inttypes_h) : string :=
  ("0x%016" ++ PRIxPTR h)%string.

(** [DDD_FMT_##f]: [DDD_FMT_I], [DDD_FMT_P] and [DDD_FMT_S] are the macros
    there are. *)
Definition DDD_FMT (h : inttypes_h) (f : string) : option string :=
  if (f =? "I")%string then Some (INT64_FORMAT h)
  else if (f =? "P")%string then Some (PTR_FORMAT h)
  else if (f =? "S")%string then Some "%s"%string
  else None.

(** [DDD_CST_##f(v)] *)
Definition DDD_CST (f v : string) : option string :=
  if (f =? "I")%string then Some ("uint64_t(" ++ v ++ ")")%string
  else if (f =? "P")%string then Some ("((intptr_t) (" ++ v ++ "))")%string
  else if (f =? "S")%string then Some ("(" ++ v ++ ")")%string
  else None.

Definition obind {A B} (o : option A) (k : A -> option B) : option B :=
  match o with
  | Some a => k a
  | None => None
  end.

Notation "x <-? o ;; k" := (obind o (fun x => k))
  (at level 61, o at next level, right associativity).

(** *** The [DDD_T] family *)

Definition DDD_T_1 (h : inttypes_h) (f1 v1 : string) : option printf_call :=
  m1 <-? DDD_FMT h f1 ;; c1 <-? DDD_CST f1 v1 ;;
  Some (mkPrintf
          ("DDD %s:%d " ++ v1 ++ ":" ++ m1 ++ newline)%string
          ["__func__"; "__LINE__"; c1]%string).

Definition DDD_T_2 (h : inttypes_h) (f1 v1 f2 v2 : string)
  : option printf_call :=
  m1 <-? DDD_FMT h f1 ;; c1 <-? DDD_CST f1 v1 ;;
  m2 <-? DDD_FMT h f2 ;; c2 <-? DDD_CST f2 v2 ;;
  Some (mkPrintf
          ("DDD %s:%d " ++ v1 ++ ":" ++ m1 ++ " " ++ v2 ++ ":" ++ m2
           ++ newline)%string
          ["__func__"; "__LINE__"; c1; c2]%string).

Definition DDD_T_3 (h : inttypes_h) (f1 v1 f2 v2 f3 v3 : string)
  : option printf_call :=
  m1 <-? DDD_FMT h f1 ;; c1 <-? DDD_CST f1 v1 ;;
  m2 <-? DDD_FMT h f2 ;; c2 <-? DDD_CST f2 v2 ;;
  m3 <-? DDD_FMT h f3 ;; c3 <-? DDD_CST f3 v3 ;;
  Some (mkPrintf
          ("DDD %s:%d " ++ v1 ++ ":" ++ m1 ++ " " ++ v2 ++ ":" ++ m2 ++ " "
           ++ v3 ++ ":" ++ m3 ++ newline)%string
          ["__func__"; "__LINE__"; c1; c2; c3]%string).

Definition DDD_T_4 (h : inttypes_h) (f1 v1 f2 v2 f3 v3 f4 v4 : string)
  : option printf_call :=
  m1 <-? DDD_FMT h f1 ;; c1 <-? DDD_CST f1 v1 ;;
  m2 <-? DDD_FMT h f2 ;; c2 <-? DDD_CST f2 v2 ;;
  m3 <-? DDD_FMT h f3 ;; c3 <-? DDD_CST f3 v3 ;;
  m4 <-? DDD_FMT h f4 ;; c4 <-? DDD_CST f4 v4 ;;
  Some (mkPrintf
          ("DDD %s:%d " ++ v1 ++ ":" ++ m1 ++ " " ++ v2 ++ ":" ++ m2 ++ " "
           ++ v3 ++ ":" ++ m3 ++ " " ++ v4 ++ ":" ++ m4 ++ newline)%string
          ["__func__"; "__LINE__"; c1; c2; c3; c4]%string).

(** [#define DDD_T_NUM_ARGS_IMPL(_1, _2, _3, _4, _5, N, ...) N] *)
Definition DDD_T_NUM_ARGS_IMPL (args : list string) : option string :=
  nth_error args 5.

(** [#define DDD_T_NUM_ARGS(...)
      DDD_T_NUM_ARGS_IMPL(__VA_ARGS__, 5, 4, 3, 2, 1, 0)] *)
Definition DDD_T_NUM_ARGS (e : cpp_env) (wa : list string) : option string :=
  DDD_T_NUM_ARGS_IMPL (passed e wa ++ ["5"; "4"; "3"; "2"; "1"; "0"]%string).

(** [#define DDD_T_NUM_ARG_PAIRS_IMPL(_1, _1b, ..., _6, _6b, N, ...) N] *)
Definition DDD_T_NUM_ARG_PAIRS_IMPL (args : list string) : option string :=
  nth_error args 12.

Definition DDD_T_NUM_ARG_PAIRS (e : cpp_env) (wa : list string)
  : option string :=
  DDD_T_NUM_ARG_PAIRS_IMPL
    (passed e wa
     ++ ["6"; "6"; "5"; "5"; "4"; "4"; "3"; "3"; "2"; "2"; "1"; "1"; "0"; "0"]
        %string).

Definition DDD_T_PASTE (a b : string) : string := (a ++ b)%string.
Definition DDD_T_MACRO_CONCAT (a b : string) : string := DDD_T_PASTE a b.

(** The invocation [name(args)] that the paste in [DDD_T] leaves behind,
    with [args] already expanded.  The name can be any macro of the header
    that starts with [DDD_T_].  [DDD_T_PASTE] and [DDD_T_MACRO_CONCAT] are
    being replaced when the name is pasted, so they are not replaced again;
    they fall under the last case with the names that are no macro. *)
Definition DDD_T_invoke (h : inttypes_h) (name : string) (args : list string)
  : expansion :=
  if (name =? "DDD_T_1")%string then
    match args with
    | [f1; v1] => of_call (DDD_T_1 h f1 v1)
    | _ => Ill_formed
    end
  else if (name =? "DDD_T_2")%string then
    match args with
    | [f1; v1; f2; v2] => of_call (DDD_T_2 h f1 v1 f2 v2)
    | _ => Ill_formed
    end
  else if (name =? "DDD_T_3")%string then
    match args with
    | [f1; v1; f2; v2; f3; v3] => of_call (DDD_T_3 h f1 v1 f2 v2 f3 v3)
    | _ => Ill_formed
    end
  else if (name =? "DDD_T_4")%string then
    match args with
    | [f1; v1; f2; v2; f3; v3; f4; v4] =>
        of_call (DDD_T_4 h f1 v1 f2 v2 f3 v3 f4 v4)
    | _ => Ill_formed
    end
  else if (name =? "DDD_T_NUM_ARGS")%string then
    of_tokens
      (DDD_T_NUM_ARGS_IMPL (args ++ ["5"; "4"; "3"; "2"; "1"; "0"]%string))
  else if (name =? "DDD_T_NUM_ARGS_IMPL")%string then
    of_tokens (DDD_T_NUM_ARGS_IMPL args)
  else if (name =? "DDD_T_NUM_ARG_PAIRS")%string then
    of_tokens
      (DDD_T_NUM_ARG_PAIRS_IMPL
         (args
          ++ ["6"; "6"; "5"; "5"; "4"; "4"; "3"; "3"; "2"; "2"; "1"; "1"; "0";
              "0"]%string))
  else if (name =? "DDD_T_NUM_ARG_PAIRS_IMPL")%string then
    of_tokens (DDD_T_NUM_ARG_PAIRS_IMPL args)
  else Ill_formed.

(** [#define DDD_T(...)
      DDD_T_MACRO_CONCAT(DDD_T_, DDD_T_NUM_ARG_PAIRS(__VA_ARGS__))(__VA_ARGS__)] *)
Definition DDD_T (e : cpp_env) (h : inttypes_h) (wa : list string)
  : expansion :=
  match DDD_T_NUM_ARG_PAIRS e wa with
  | Some n => DDD_T_invoke h (DDD_T_MACRO_CONCAT "DDD_T_" n) (passed e wa)
  | None => Ill_formed
  end.

(** [DDD_T] as a function of the arguments it passes on; equal to [DDD_T]
    by computation, and used to reason by cases on their number. *)
Definition DDD_T_on (h : inttypes_h) (va : list string) : expansion :=
  match
    nth_error
      (va ++ ["6"; "6"; "5"; "5"; "4"; "4"; "3"; "3"; "2"; "2"; "1"; "1"; "0";
              "0"]%string) 12
  with
  | Some n => DDD_T_invoke h ("DDD_T_" ++ n)%string va
  | None => Ill_formed
  end.

(** *** The [DDD_D] family, as the header repeats it *)

Definition DDD_D_1 (h : inttypes_h) (f1 v1 : string) : option printf_call :=
  m1 <-? DDD_FMT h f1 ;; c1 <-? DDD_CST f1 v1 ;;
  Some (mkPrintf
          ("DDD %s:%d " ++ v1 ++ ":" ++ m1 ++ newline)%string
          ["__func__"; "__LINE__"; c1]%string).

Definition DDD_D_2 (h : inttypes_h) (f1 v1 f2 v2 : string)
  : option printf_call :=
  m1 <-? DDD_FMT h f1 ;; c1 <-? DDD_CST f1 v1 ;;
  m2 <-? DDD_FMT h f2 ;; c2 <-? DDD_CST f2 v2 ;;
  Some (mkPrintf
          ("DDD %s:%d " ++ v1 ++ ":" ++ m1 ++ " " ++ v2 ++ ":" ++ m2
           ++ newline)%string
          ["__func__"; "__LINE__"; c1; c2]%string).

Definition DDD_D_3 (h : inttypes_h) (f1 v1 f2 v2 f3 v3 : string)
  : option printf_call :=
  m1 <-? DDD_FMT h f1 ;; c1 <-? DDD_CST f1 v1 ;;
  m2 <-? DDD_FMT h f2 ;; c2 <-? DDD_CST f2 v2 ;;
  m3 <-? DDD_FMT h f3 ;; c3 <-? DDD_CST f3 v3 ;;
  Some (mkPrintf
          ("DDD %s:%d " ++ v1 ++ ":" ++ m1 ++ " " ++ v2 ++ ":" ++ m2 ++ " "
           ++ v3 ++ ":" ++ m3 ++ newline)%string
          ["__func__"; "__LINE__"; c1; c2; c3]%string).

Definition DDD_D_4 (h : inttypes_h) (f1 v1 f2 v2 f3 v3 f4 v4 : string)
  : option printf_call :=
  m1 <-? DDD_FMT h f1 ;; c1 <-? DDD_CST f1 v1 ;;
  m2 <-? DDD_FMT h f2 ;; c2 <-? DDD_CST f2 v2 ;;
  m3 <-? DDD_FMT h f3 ;; c3 <-? DDD_CST f3 v3 ;;
  m4 <-? DDD_FMT h f4 ;; c4 <-? DDD_CST f4 v4 ;;
  Some (mkPrintf
          ("DDD %s:%d " ++ v1 ++ ":" ++ m1 ++ " " ++ v2 ++ ":" ++ m2 ++ " "
           ++ v3 ++ ":" ++ m3 ++ " " ++ v4 ++ ":" ++ m4 ++ newline)%string
          ["__func__"; "__LINE__"; c1; c2; c3; c4]%string).

(** [#define DDD_D_NUM_ARGS_IMPL(_1, _2, _3, _4, _5, N, ...) N] *)
Definition DDD_D_NUM_ARGS_IMPL (args : list string) : option string :=
  nth_error args 5.

(** [#define DDD_D_NUM_ARGS(...)
      DDD_D_NUM_ARGS_IMPL(__VA_ARGS__, 5, 4, 3, 2, 1, 0)] *)
Definition DDD_D_NUM_ARGS (e : cpp_env) (wa : list string) : option string :=
  DDD_D_NUM_ARGS_IMPL (passed e wa ++ ["5"; "4"; "3"; "2"; "1"; "0"]%string).

(** [#define DDD_D_NUM_ARG_PAIRS_IMPL(_1, _1b, ..., _6, _6b, N, ...) N] *)
Definition DDD_D_NUM_ARG_PAIRS_IMPL (args : list string) : option string :=
  nth_error args 12.

Definition DDD_D_NUM_ARG_PAIRS (e : cpp_env) (wa : list string)
  : option string :=
  DDD_D_NUM_ARG_PAIRS_IMPL
    (passed e wa
     ++ ["6"; "6"; "5"; "5"; "4"; "4"; "3"; "3"; "2"; "2"; "1"; "1"; "0"; "0"]
        %string).

Definition DDD_D_PASTE (a b : string) : string := (a ++ b)%string.
Definition DDD_D_MACRO_CONCAT (a b : string) : string := DDD_D_PASTE a b.

(** The invocation [name(args)] that the paste in [DDD_D] leaves behind,
    with [args] already expanded.  The name can be any macro of the header
    that starts with [DDD_D_].  [DDD_D_PASTE] and [DDD_D_MACRO_CONCAT] are
    being replaced when the name is pasted, so they are not replaced again;
    they fall under the last case with the names that are no macro. *)
Definition DDD_D_invoke (h : inttypes_h) (name : string) (args : list string)
  : expansion :=
  if (name =? "DDD_D_1")%string then
    match args with
    | [f1; v1] => of_call (DDD_D_1 h f1 v1)
    | _ => Ill_formed
    end
  else if (name =? "DDD_D_2")%string then
    match args with
    | [f1; v1; f2; v2] => of_call (DDD_D_2 h f1 v1 f2 v2)
    | _ => Ill_formed
    end
  else if (name =? "DDD_D_3")%string then
    match args with
    | [f1; v1; f2; v2; f3; v3] => of_call (DDD_D_3 h f1 v1 f2 v2 f3 v3)
    | _ => Ill_formed
    end
  else if (name =? "DDD_D_4")%string then
    match args with
    | [f1; v1; f2; v2; f3; v3; f4; v4] =>
        of_call (DDD_D_4 h f1 v1 f2 v2 f3 v3 f4 v4)
    | _ => Ill_formed
    end
  else if (name =? "DDD_D_NUM_ARGS")%string then
    of_tokens
      (DDD_D_NUM_ARGS_IMPL (args ++ ["5"; "4"; "3"; "2"; "1"; "0"]%string))
  else if (name =? "DDD_D_NUM_ARGS_IMPL")%string then
    of_tokens (DDD_D_NUM_ARGS_IMPL args)
  else if (name =? "DDD_D_NUM_ARG_PAIRS")%string then
    of_tokens
      (DDD_D_NUM_ARG_PAIRS_IMPL
         (args
          ++ ["6"; "6"; "5"; "5"; "4"; "4"; "3"; "3"; "2"; "2"; "1"; "1"; "0";
              "0"]%string))
  else if (name =? "DDD_D_NUM_ARG_PAIRS_IMPL")%string then
    of_tokens (DDD_D_NUM_ARG_PAIRS_IMPL args)
  else Ill_formed.

(** [#define DDD_D(...)
      DDD_D_MACRO_CONCAT(DDD_D_, DDD_D_NUM_ARG_PAIRS(__VA_ARGS__))(__VA_ARGS__)] *)
Definition DDD_D (e : cpp_env) (h : inttypes_h) (wa : list string)
  : expansion :=
  match DDD_D_NUM_ARG_PAIRS e wa with
  | Some n => DDD_D_invoke h (DDD_D_MACRO_CONCAT "DDD_D_" n) (passed e wa)
  | None => Ill_formed
  end.

(** Number of [%] characters of a format. *)
Fixpoint count_percent (s : string) : nat :=
  match s with
  | EmptyString => 0
  | String c rest =>
      ((if Ascii.eqb c "%" then 1 else 0) + count_percent rest)%nat
  end.

Definition is_fmt (f : string) : bool :=
  ((f =? "I") || (f =? "P") || (f =? "S"))%string.

(** The arguments come in pairs of a format letter and a value. *)
Fixpoint format_value_pairs (va : list string) : bool :=
  match va with
  | [] => true
  | f :: _ :: rest => is_fmt f && format_value_pairs rest
  | [_] => false
  end.

(** Decimal spelling of a number. *)
Definition numeral (n : nat) : string :=
  NilEmpty.string_of_uint (Nat.to_uint n).

Definition lp64_inttypes_h : inttypes_h := mkInttypesH "ld" "lx".

(** A translation unit with [#define AB a, b]. *)
Definition ab_env : cpp_env :=
  mkCppEnv
    (flat_map (fun a => if (a =? "AB")%string then ["a"; "b"]%string else [a])).

(** ** Instruction fields

    [bit_field w lo n] is the field of [n] bits of the word [w] that starts at
    bit [lo]; used to say which instruction words the masks of [skipLoad]
    accept. *)
Definition bit_field (w lo n : Z) : Z := (w / 2 ^ lo) mod 2 ^ n.

(** ** Concrete targets, layouts and memories used to exercise the model *)

Definition x86_64_target : target := mkTarget X86_64 LittleEndian 8 1.
Definition i386_target : target := mkTarget I386 LittleEndian 4 1.
Definition arm_target : target := mkTarget ARM LittleEndian 4 4.
Definition aarch64_target : target := mkTarget AARCH64 LittleEndian 8 4.
Definition ppc64le_target : target := mkTarget PPC64 LittleEndian 8 4.
Definition ppc64be_target : target := mkTarget PPC64 BigEndian 8 4.
Definition riscv64_target : target := mkTarget OtherArch LittleEndian 8 4.

(** Three probes laid out back to back. *)
Definition sample_layout : layout := mkLayout 0x401000 0x401010 0x401020.

(** x86_64: [48 8b 07  mov rax,[rdi]; c3 ret] at each of the three entries. *)
Definition x86_64_text : memory :=
  poke (poke (poke unmapped 0x401000 [0x48; 0x8b; 0x07; 0xc3])
             0x401010 [0x48; 0x8b; 0x07; 0xc3])
       0x401020 [0x48; 0x8b; 0x07; 0xc3].

(** i386: [8b 00  mov eax,[eax]]. *)
Definition i386_text : memory := poke unmapped 0x401000 [0x8b; 0x00; 0xc3].

(** arm: [e5900000  ldr r0,[r0]]. *)
Definition arm_text : memory := poke unmapped 0x401000 [0x00; 0x00; 0x90; 0xe5].

(** aarch64: [f9400000  ldr x0,[x0]]. *)
Definition aarch64_text : memory :=
  poke unmapped 0x401000 [0x00; 0x00; 0x40; 0xf9].

(** Sixteen zero bytes at the entry of [load]: no load instruction on any
    architecture. *)
Definition zero_text : memory :=
  poke unmapped 0x401000 (repeat 0 16).

(** A stack with the word [0x7f0012345678] stored below [0x7ffc1000]. *)
Definition sample_stack : memory :=
  poke unmapped 0x7ffc0ff8 [0x78; 0x56; 0x34; 0x12; 0x00; 0x7f; 0x00; 0x00].

(** [SIGIO] as the system headers of Linux (x86, arm, ppc) and of macOS
    number it. *)
Definition linux_signal_h : signal_h := mkSignalH 29.
Definition macos_signal_h : signal_h := mkSignalH 23.

(** * Verification *)

(** ** Bytes and byte order *)

Lemma byte_to_Z_range (b : byte) : 0 <= byte_to_Z b < 256.
Proof.
  unfold byte_to_Z. pose proof (Byte.to_N_bounded b) as Hb.
  apply N.leb_le in Hb. apply N.leb_le in Hb. lia.
Qed.

Lemma byte_to_of_Z (z : Z) : byte_to_Z (byte_of_Z z) = z mod 256.
Proof.
  unfold byte_to_Z, byte_of_Z.
  pose proof (Z.mod_pos_bound z 256 ltac:(lia)) as Hr.
  destruct (Byte.of_N (Z.to_N (z mod 256))) as [b|] eqn:E.
  - apply Byte.to_of_N in E. rewrite E. lia.
  - apply Byte.of_N_None_iff in E. lia.
Qed.

Lemma modulus_succ (n : nat) : modulus (S n) = 256 * modulus n.
Proof.
  unfold modulus.
  replace (8 * Z.of_nat (S n)) with (8 + 8 * Z.of_nat n) by lia.
  rewrite Z.pow_add_r by lia. reflexivity.
Qed.

Lemma modulus_pos (n : nat) : 0 < modulus n.
Proof. unfold modulus. apply Z.pow_pos_nonneg; lia. Qed.

Lemma read_bytes_length (m : memory) (n : nat) :
  forall a bs, read_bytes m a n = Some bs -> length bs = n.
Proof.
  induction n as [|k IH]; simpl; intros a bs H.
  - inversion H. reflexivity.
  - destruct (m a) as [b|]; [|discriminate].
    destruct (read_bytes m (a + 1) k) as [rest|] eqn:E; [|discriminate].
    inversion H; subst. simpl. f_equal. eauto.
Qed.

Lemma decode_le_range (bs : list byte) :
  0 <= decode_le bs < modulus (length bs).
Proof.
  induction bs as [|b rest IH]; cbn [length decode_le].
  - unfold modulus. simpl. lia.
  - rewrite modulus_succ. pose proof (byte_to_Z_range b). lia.
Qed.

Lemma decode_range (e : endianness) (bs : list byte) :
  0 <= decode e bs < modulus (length bs).
Proof.
  destruct e; simpl.
  - apply decode_le_range.
  - rewrite <- length_rev. apply decode_le_range.
Qed.

Lemma decode_encode_le (n : nat) :
  forall v, decode_le (encode_le n v) = v mod modulus n.
Proof.
  induction n as [|k IH]; intro v; cbn [encode_le decode_le].
  - unfold modulus. simpl. rewrite Z.mod_1_r. reflexivity.
  - rewrite IH, byte_to_of_Z, modulus_succ.
    pose proof (modulus_pos k) as Hk.
    rewrite (Z.rem_mul_r v 256 (modulus k)) by lia. reflexivity.
Qed.

Lemma decode_encode (e : endianness) (n : nat) (v : Z) :
  0 <= v < modulus n -> decode e (encode e n v) = v.
Proof.
  intro Hv. destruct e; simpl.
  - rewrite decode_encode_le. apply Z.mod_small. exact Hv.
  - rewrite rev_involutive, decode_encode_le. apply Z.mod_small. exact Hv.
Qed.

(** ** The monad *)

Lemma deref_ok (t : target) (m : memory) (a : Z) (n : nat) (bs : list byte) :
  read_bytes m a n = Some bs ->
  deref t a n m = (Ok (decode (byte_order t) bs), [mkAccess a n]).
Proof. intro H. unfold deref. rewrite H. reflexivity. Qed.

Lemma deref_holds (t : target) (m : memory) (a : Z) (n : nat) (v : Z) :
  0 <= v < modulus n ->
  holds t m a n v ->
  deref t a n m = (Ok v, [mkAccess a n]).
Proof.
  intros Hv H. rewrite (deref_ok _ _ _ _ _ H), decode_encode by exact Hv.
  reflexivity.
Qed.

Lemma bind_deref_ret {B} (t : target) (m : memory) (a : Z) (n : nat)
      (bs : list byte) (f : Z -> B) :
  read_bytes m a n = Some bs ->
  (v <- deref t a n ;; ret (f v)) m
  = (Ok (f (decode (byte_order t) bs)), [mkAccess a n]).
Proof.
  intro H. unfold bind. rewrite (deref_ok _ _ _ _ _ H). reflexivity.
Qed.

(** ** The window test *)

Lemma UINTPTR_MODULUS_cases (t : target) :
  target_ok t = true ->
  UINTPTR_MODULUS t = 4294967296 \/ UINTPTR_MODULUS t = 18446744073709551616.
Proof.
  unfold target_ok, UINTPTR_MODULUS. intro H.
  apply orb_true_iff in H. destruct H as [H|H]; apply Nat.eqb_eq in H;
    rewrite H; [left|right]; reflexivity.
Qed.

(** An aligned entry leaves room for its whole window below the top of the
    address space. *)
Lemma entry_ok_bounds (t : target) (e : Z) :
  target_ok t = true -> entry_ok t e = true ->
  0 <= e /\ e + 16 <= UINTPTR_MODULUS t.
Proof.
  intros Ht He. unfold entry_ok, is_uintptr in He.
  apply andb_true_iff in He. destruct He as [Hr Ha].
  apply andb_true_iff in Hr. destruct Hr as [H0 H1].
  apply Z.leb_le in H0. apply Z.ltb_lt in H1. apply Z.eqb_eq in Ha.
  pose proof (Z.div_mod e 16 ltac:(lia)) as Hd.
  destruct (UINTPTR_MODULUS_cases t Ht) as [E|E]; rewrite E in *; lia.
Qed.

(** The unsigned test [(pc - entry) < 16] decides membership in the window
    [entry, entry + 16). *)
Lemma window_test (t : target) (e pc : Z) :
  target_ok t = true -> entry_ok t e = true -> is_uintptr t pc = true ->
  (usub t pc e <? 16) = in_window e pc.
Proof.
  intros Ht He Hpc.
  destruct (entry_ok_bounds t e Ht He) as [H0 H1].
  unfold is_uintptr in Hpc. apply andb_true_iff in Hpc.
  destruct Hpc as [P0 P1]. apply Z.leb_le in P0. apply Z.ltb_lt in P1.
  unfold usub, in_window.
  destruct (Z_lt_ge_dec pc e) as [Hlt|Hge].
  - replace ((pc - e) mod UINTPTR_MODULUS t) with (pc - e + UINTPTR_MODULUS t).
    + destruct (e <=? pc) eqn:E1; [apply Z.leb_le in E1; lia|].
      simpl. apply Z.ltb_ge. lia.
    + apply Z.mod_unique with (q := -1); lia.
  - rewrite Z.mod_small by lia.
    replace (e <=? pc) with true by (symmetry; apply Z.leb_le; lia).
    simpl. destruct (pc <? e + 16) eqn:E2.
    + apply Z.ltb_lt in E2. apply Z.ltb_lt. lia.
    + apply Z.ltb_ge in E2. apply Z.ltb_ge. lia.
Qed.

Lemma layout_ok_entries (t : target) (L : layout) :
  layout_ok t L = true ->
  entry_ok t (load_entry L) = true /\ entry_ok t (load32_entry L) = true
  /\ entry_ok t (loadPtr_entry L) = true
  /\ load_entry L <> load32_entry L /\ load_entry L <> loadPtr_entry L
  /\ load32_entry L <> loadPtr_entry L.
Proof.
  unfold layout_ok. intro H.
  do 5 (apply andb_true_iff in H; destruct H as [H ?]).
  repeat match goal with
         | X : negb _ = true |- _ =>
             apply negb_true_iff in X; apply Z.eqb_neq in X
         end.
  repeat split; assumption.
Qed.

(** Two distinct aligned entries have disjoint windows. *)
Lemma aligned_windows_disjoint (t : target) (e1 e2 pc : Z) :
  entry_ok t e1 = true -> entry_ok t e2 = true -> e1 <> e2 ->
  in_window e1 pc = true -> in_window e2 pc = false.
Proof.
  unfold entry_ok, in_window. intros H1 H2 Hne Hw.
  apply andb_true_iff in H1. destruct H1 as [_ A1]. apply Z.eqb_eq in A1.
  apply andb_true_iff in H2. destruct H2 as [_ A2]. apply Z.eqb_eq in A2.
  apply andb_true_iff in Hw. destruct Hw as [W1 W2].
  apply Z.leb_le in W1. apply Z.ltb_lt in W2.
  pose proof (Z.div_mod e1 16 ltac:(lia)).
  pose proof (Z.div_mod e2 16 ltac:(lia)).
  apply andb_false_iff.
  destruct (Z_lt_ge_dec pc e2); [left; apply Z.leb_gt; lia|].
  right. apply Z.ltb_ge. lia.
Qed.

(** ** [skipLoad] against the decode table *)

Lemma land_ones_small (v n : Z) :
  0 <= n -> 0 <= v < 2 ^ n -> Z.land v (Z.ones n) = v.
Proof.
  intros Hn Hv. rewrite Z.land_ones by exact Hn. apply Z.mod_small. exact Hv.
Qed.

(** Outside the window of [load] nothing is read and nothing is skipped. *)
Lemma skipLoad_outside_load_window (t : target) (L : layout) (pc : Z)
      (m : memory) :
  target_ok t = true -> layout_ok t L = true -> is_uintptr t pc = true ->
  in_window (load_entry L) pc = false ->
  skipLoad t L pc m = (Ok 0, []).
Proof.
  intros Ht HL Hpc Hw.
  destruct (layout_ok_entries t L HL) as [He _].
  unfold skipLoad. rewrite (window_test t _ pc Ht He Hpc), Hw. reflexivity.
Qed.

(** Inside the window of [load], on a target that has a decode entry, the
    code inspects exactly the bytes the entry names and answers with the
    entry's length when they match under the entry's mask, with 0 when they
    do not. *)
Lemma skipLoad_refines_table (t : target) (L : layout) (pc : Z) (m : memory)
      (d : decode_entry) (bs : list byte) :
  target_ok t = true -> layout_ok t L = true -> is_uintptr t pc = true ->
  in_window (load_entry L) pc = true ->
  decode_table t = Some d ->
  read_bytes m pc (de_width d) = Some bs ->
  skipLoad t L pc m
  = (Ok (if Z.land (decode (byte_order t) bs) (de_mask d) =? de_pattern d
         then de_length d else 0),
     [mkAccess pc (de_width d)]).
Proof.
  intros Ht HL Hpc Hw Hd Hr.
  destruct (layout_ok_entries t L HL) as [He _].
  unfold skipLoad. rewrite (window_test t _ pc Ht He Hpc), Hw.
  unfold decode_table in Hd.
  pose proof (decode_range (byte_order t) bs) as Hrange.
  rewrite (read_bytes_length _ _ _ _ Hr) in Hrange.
  destruct (cpu t); inversion Hd; subst d; cbn [de_width de_mask de_pattern
    de_length] in *; rewrite (bind_deref_ret _ _ _ _ _ _ Hr).
  - change 0xffff with (Z.ones 16).
    rewrite land_ones_small by (change (modulus 2) with (2 ^ 16) in Hrange; lia).
    reflexivity.
  - change 0xff with (Z.ones 8).
    rewrite land_ones_small by (change (modulus 1) with (2 ^ 8) in Hrange; lia).
    reflexivity.
  - reflexivity.
  - reflexivity.
Qed.

Lemma decode_table_documented (t : target) (d : decode_entry) :
  decode_table t = Some d ->
  de_length d = documented_skip (cpu t) /\ documented_skip (cpu t) <> 0.
Proof.
  unfold decode_table, documented_skip.
  destruct (cpu t); intro H; inversion H; subst; simpl; split; lia.
Qed.

Lemma in_window_entry (e : Z) : in_window e e = true.
Proof.
  unfold in_window. apply andb_true_iff. split.
  - apply Z.leb_le. lia.
  - apply Z.ltb_lt. lia.
Qed.

(** ** Claims about [skipLoad] *)

(** C1 (as amended).  On a target with a decode entry (x86_64, i386, arm,
    aarch64), when [pc] is the entry address of [SafeAccess::load], or any
    address of its 16-byte window, and the bytes at [pc] match the
    architecture's load encoding, [skipLoad pc] returns the documented
    nonzero byte count (3, 2, 4 and 4).  At the entry addresses of [load32]
    and [loadPtr] it returns 0 and reads nothing, whatever the bytes there
    are: the code tests the window of [load] only. *)
Theorem skipLoad_decodes_load_window (t : target) (L : layout) (m : memory) :
  target_ok t = true -> layout_ok t L = true ->
  (forall pc d,
      is_uintptr t pc = true ->
      in_window (load_entry L) pc = true ->
      decode_table t = Some d ->
      encoding_matches t m pc = Some true ->
      result (skipLoad t L pc m) = Ok (documented_skip (cpu t))
      /\ documented_skip (cpu t) <> 0)
  /\ (forall d,
      decode_table t = Some d ->
      encoding_matches t m (entry L Load) = Some true ->
      result (skipLoad t L (entry L Load) m) = Ok (documented_skip (cpu t)))
  /\ skipLoad t L (entry L Load32) m = (Ok 0, [])
  /\ skipLoad t L (entry L LoadPtr) m = (Ok 0, []).
Proof.
  intros Ht HL.
  destruct (layout_ok_entries t L HL) as (He & He32 & HeP & N1 & N2 & _).
  assert (Hin : forall pc d,
      is_uintptr t pc = true ->
      in_window (load_entry L) pc = true ->
      decode_table t = Some d ->
      encoding_matches t m pc = Some true ->
      result (skipLoad t L pc m) = Ok (documented_skip (cpu t))
      /\ documented_skip (cpu t) <> 0).
  { intros pc d Hpc Hw Hd Hm.
    destruct (decode_table_documented t d Hd) as [Hlen Hnz].
    split; [|exact Hnz].
    unfold encoding_matches in Hm. rewrite Hd in Hm.
    unfold entry_matches in Hm.
    destruct (read_bytes m pc (de_width d)) as [bs|] eqn:Hr; [|discriminate].
    inversion Hm as [Hb].
    rewrite (skipLoad_refines_table t L pc m d bs Ht HL Hpc Hw Hd Hr).
    unfold result. simpl. rewrite Hb, Hlen. reflexivity. }
  assert (Hu : forall e, entry_ok t e = true -> is_uintptr t e = true).
  { intros e H. unfold entry_ok in H. apply andb_true_iff in H. tauto. }
  split; [exact Hin|]. split; [|split].
  - intros d Hd Hm. simpl entry in *.
    apply (Hin (load_entry L) d); auto using in_window_entry.
  - simpl entry. apply skipLoad_outside_load_window; auto.
    apply (aligned_windows_disjoint t (load32_entry L) (load_entry L)); auto
      using in_window_entry.
  - simpl entry. apply skipLoad_outside_load_window; auto.
    apply (aligned_windows_disjoint t (loadPtr_entry L) (load_entry L)); auto
      using in_window_entry.
Qed.

(** C2 (as amended).  On a target with a decode entry (x86_64, i386, arm,
    aarch64), for every [pc] in the 16-byte window of [load] whose bytes are
    readable and do not match the entry, [skipLoad pc] returns 0.  On the
    fallback branch (no entry: PPC64 and every other target) the bytes are
    not inspected: [skipLoad pc] returns [sizeof(instruction_t)] for every
    [pc] in the window. *)
Theorem skipLoad_mismatch (t : target) (L : layout) (pc : Z) (m : memory) :
  target_ok t = true -> layout_ok t L = true -> is_uintptr t pc = true ->
  in_window (load_entry L) pc = true ->
  (forall d, decode_table t = Some d ->
             encoding_matches t m pc = Some false ->
             result (skipLoad t L pc m) = Ok 0)
  /\ (decode_table t = None ->
      skipLoad t L pc m = (Ok (Z.of_nat (sizeof_instruction_t t)), [])).
Proof.
  intros Ht HL Hpc Hw. split.
  - intros d Hd Hm. unfold encoding_matches in Hm. rewrite Hd in Hm.
    unfold entry_matches in Hm.
    destruct (read_bytes m pc (de_width d)) as [bs|] eqn:Hr; [|discriminate].
    inversion Hm as [Hb].
    rewrite (skipLoad_refines_table t L pc m d bs Ht HL Hpc Hw Hd Hr).
    unfold result. simpl. rewrite Hb. reflexivity.
  - intro Hd. destruct (layout_ok_entries t L HL) as [He _].
    unfold skipLoad. rewrite (window_test t _ pc Ht He Hpc), Hw.
    unfold decode_table in Hd. destruct (cpu t); try discriminate; reflexivity.
Qed.

(** C3.  For every [pc] outside the windows of all three probes,
    [skipLoad pc] returns 0 (and reads no memory), on every target. *)
Theorem skipLoad_outside_windows (t : target) (L : layout) (pc : Z)
        (m : memory) :
  target_ok t = true -> layout_ok t L = true -> is_uintptr t pc = true ->
  outside_all_windows L pc = true ->
  skipLoad t L pc m = (Ok 0, []).
Proof.
  intros Ht HL Hpc Hout. unfold outside_all_windows in Hout.
  apply andb_true_iff in Hout. destruct Hout as [Hout _].
  apply andb_true_iff in Hout. destruct Hout as [Hout _].
  apply negb_true_iff in Hout.
  apply skipLoad_outside_load_window; assumption.
Qed.

(** C8.  For every [pc] strictly below the entry of [load] the unsigned
    difference [pc - entry] wraps around to [pc - entry + 2^w], which is at
    least 16, so the window test fails and [skipLoad pc] returns 0. *)
Theorem skipLoad_below_load_entry (t : target) (L : layout) (pc : Z)
        (m : memory) :
  target_ok t = true -> layout_ok t L = true ->
  0 <= pc < load_entry L ->
  usub t pc (load_entry L) = pc - load_entry L + UINTPTR_MODULUS t
  /\ 16 <= usub t pc (load_entry L)
  /\ skipLoad t L pc m = (Ok 0, []).
Proof.
  intros Ht HL Hpc.
  destruct (layout_ok_entries t L HL) as [He _].
  destruct (entry_ok_bounds t _ Ht He) as [H0 H1].
  assert (Hu : usub t pc (load_entry L)
               = pc - load_entry L + UINTPTR_MODULUS t).
  { unfold usub. symmetry. apply Z.mod_unique with (q := -1); lia. }
  split; [exact Hu|]. split; [lia|].
  unfold skipLoad. rewrite Hu.
  replace (pc - load_entry L + UINTPTR_MODULUS t <? 16) with false
    by (symmetry; apply Z.ltb_ge; lia).
  reflexivity.
Qed.

(** C5.  [skipLoadArg pc] is 4 exactly when the target is aarch64 and [pc]
    lies in the 16-byte window of [load32] or of [loadPtr]; on any other
    target, and for any [pc] outside those two windows, it is 0. *)
Theorem skipLoadArg_spec (t : target) (L : layout) (pc : Z) :
  target_ok t = true -> layout_ok t L = true -> is_uintptr t pc = true ->
  skipLoadArg t L pc
  = (if arch_eqb (cpu t) AARCH64
        && (in_window (load32_entry L) pc || in_window (loadPtr_entry L) pc)
     then 4 else 0)
  /\ (skipLoadArg t L pc <> 0 ->
      cpu t = AARCH64
      /\ (in_window (load32_entry L) pc = true
          \/ in_window (loadPtr_entry L) pc = true)).
Proof.
  intros Ht HL Hpc.
  destruct (layout_ok_entries t L HL) as (_ & He32 & HeP & _).
  assert (E : skipLoadArg t L pc
    = (if arch_eqb (cpu t) AARCH64
        && (in_window (load32_entry L) pc || in_window (loadPtr_entry L) pc)
       then 4 else 0)).
  { unfold skipLoadArg.
    rewrite (window_test t _ pc Ht He32 Hpc), (window_test t _ pc Ht HeP Hpc).
    destruct (cpu t); reflexivity. }
  split; [exact E|].
  rewrite E. intro Hnz.
  destruct (cpu t); simpl in Hnz; try (exfalso; apply Hnz; reflexivity).
  split; [reflexivity|].
  destruct (in_window (load32_entry L) pc); [left; reflexivity|].
  destruct (in_window (loadPtr_entry L) pc); [right; reflexivity|].
  exfalso; apply Hnz; reflexivity.
Qed.

(** ** Claims about the probes *)

(** C4.  When the bytes at [a] are readable and hold the value [v], each of
    [load], [load32] and [loadPtr] performs exactly one access, at [a] and of
    the probe's width, and returns [v]; the two-argument probes do so for
    every [default_value]. *)
Theorem probes_return_loaded_value (t : target) (m : memory) (a v : Z) :
  0 <= v ->
  (v < modulus (sizeof_uintptr_t t) ->
   holds t m a (sizeof_uintptr_t t) v ->
   load t a m = (Ok v, [mkAccess a (sizeof_uintptr_t t)])
   /\ forall default_value,
        loadPtr t a default_value m
        = (Ok v, [mkAccess a (sizeof_uintptr_t t)]))
  /\ (v < modulus 4 ->
      holds t m a 4 v ->
      forall default_value,
        load32 t a default_value m = (Ok v, [mkAccess a 4%nat])).
Proof.
  intro Hv. split.
  - intros Hlt Hh. split; [|intro default_value];
      unfold load, loadPtr; apply deref_holds; auto.
  - intros Hlt Hh default_value. unfold load32. apply deref_holds; auto.
Qed.

(** ** Claims about [lastJavaPCFromStack] *)

(** C6.  On little-endian PPC64, [lastJavaPCFromStack] returns [NULL] for
    every pair of arguments, and reads no memory. *)
Theorem lastJavaPCFromStack_ppc64le (t : target) (lastJavaSP topSP : Z)
        (m : memory) :
  cpu t = PPC64 -> byte_order t = LittleEndian ->
  lastJavaPCFromStack t lastJavaSP topSP m = (Ok NULL, []).
Proof.
  intros Hc Hb. unfold lastJavaPCFromStack. rewrite Hc, Hb. reflexivity.
Qed.

(** C9.  On every target other than aarch64 and little-endian PPC64,
    [lastJavaPCFromStack] returns [NULL] without any memory access when
    [lastJavaSP >= topSP]; when [lastJavaSP < topSP] its one access is the
    pointer-sized slot just below [lastJavaSP]; so whenever it accesses
    memory at all, [lastJavaSP < topSP]. *)
Theorem lastJavaPCFromStack_guarded (t : target) (lastJavaSP topSP : Z)
        (m : memory) :
  cpu t <> AARCH64 ->
  ~ (cpu t = PPC64 /\ byte_order t = LittleEndian) ->
  (topSP <= lastJavaSP ->
   lastJavaPCFromStack t lastJavaSP topSP m = (Ok NULL, []))
  /\ (lastJavaSP < topSP ->
      accesses (lastJavaPCFromStack t lastJavaSP topSP m)
      = [mkAccess ((lastJavaSP - Z.of_nat (sizeof_uintptr_t t))
                   mod UINTPTR_MODULUS t)
                  (sizeof_uintptr_t t)])
  /\ (accesses (lastJavaPCFromStack t lastJavaSP topSP m) <> [] ->
      lastJavaSP < topSP).
Proof.
  intros Ha Hp.
  assert (Hbody : lastJavaPCFromStack t lastJavaSP topSP m
    = (if lastJavaSP <? topSP
       then deref t (ptr_index t lastJavaSP (-1)) (sizeof_uintptr_t t)
       else ret NULL) m).
  { unfold lastJavaPCFromStack.
    destruct (cpu t) eqn:Ec; destruct (byte_order t) eqn:Eb;
      try reflexivity; try congruence.
    exfalso. apply Hp. split; reflexivity. }
  rewrite Hbody. clear Hbody.
  assert (Hslot : ptr_index t lastJavaSP (-1)
                  = (lastJavaSP - Z.of_nat (sizeof_uintptr_t t))
                    mod UINTPTR_MODULUS t).
  { unfold ptr_index. f_equal; lia. }
  destruct (lastJavaSP <? topSP) eqn:E.
  - apply Z.ltb_lt in E. split; [lia|]. split; [|intros _; exact E].
    intros _. rewrite Hslot. unfold deref, accesses.
    destruct (read_bytes m _ _); reflexivity.
  - apply Z.ltb_ge in E. split; [reflexivity|]. split; [lia|].
    intro H. exfalso. apply H. reflexivity.
Qed.

(** ** Claims about os.h *)

(** [hasNext] only looks at the two base-class members. *)
Lemma hasNext_reflect (tl : ThreadList) :
  hasNext tl = true <-> index tl < count tl.
Proof. unfold hasNext, index, count. apply Z.ltb_lt. Qed.

(** C10.  For every [ThreadList], [hasNext()] is true if and only if
    [index() < count()]; this holds in every state an implementation of the
    virtual [next()] and [update()] can reach; and a freshly constructed
    [ThreadList] has index 0 and count 0, so its [hasNext()] is false. *)
Theorem ThreadList_hasNext_invariant :
  (forall tl : ThreadList, hasNext tl = true <-> index tl < count tl)
  /\ (forall (St : Type) (I : ThreadListImpl St) (s : St) (cs : list call),
         hasNext (base (do_calls s cs)) = true
         <-> index (base (do_calls s cs)) < count (base (do_calls s cs)))
  /\ index ThreadList_new = 0
  /\ count ThreadList_new = 0
  /\ hasNext ThreadList_new = false.
Proof.
  split; [exact hasNext_reflect|]. split.
  - intros St I s cs. apply hasNext_reflect.
  - repeat split.
Qed.

(** ** The model on concrete inputs *)

Example skipLoad_x86_64_at_load :
  skipLoad x86_64_target sample_layout 0x401000 x86_64_text
  = (Ok 3, [mkAccess 0x401000 2]).
Proof. reflexivity. Qed.

Example skipLoad_i386_at_load :
  skipLoad i386_target sample_layout 0x401000 i386_text
  = (Ok 2, [mkAccess 0x401000 1]).
Proof. reflexivity. Qed.

Example skipLoad_arm_at_load :
  skipLoad arm_target sample_layout 0x401000 arm_text
  = (Ok 4, [mkAccess 0x401000 4]).
Proof. reflexivity. Qed.

Example skipLoad_aarch64_at_load :
  skipLoad aarch64_target sample_layout 0x401000 aarch64_text
  = (Ok 4, [mkAccess 0x401000 4]).
Proof. reflexivity. Qed.

Example skipLoad_unmapped_faults :
  skipLoad x86_64_target sample_layout 0x401000 unmapped
  = (Segv, [mkAccess 0x401000 2]).
Proof. reflexivity. Qed.

Example lastJavaPCFromStack_aarch64_unguarded :
  lastJavaPCFromStack aarch64_target 0x7ffc1000 0 sample_stack
  = (Ok 0x7f0012345678, [mkAccess 0x7ffc0ff8 8]).
Proof. reflexivity. Qed.

Example skipLoad_riscv64_in_window :
  skipLoad riscv64_target sample_layout 0x40100c zero_text = (Ok 4, []).
Proof. reflexivity. Qed.

Example lastJavaPCFromStack_ppc64be_reads :
  lastJavaPCFromStack ppc64be_target 0x7ffc1000 0x7ffc2000 sample_stack
  = (Ok 0x78563412007f0000, [mkAccess 0x7ffc0ff8 8]).
Proof. reflexivity. Qed.

Example lastJavaPCFromStack_ppc64be_guard :
  lastJavaPCFromStack ppc64be_target 0x7ffc1000 0x7ffc1000 sample_stack
  = (Ok NULL, []).
Proof. reflexivity. Qed.

Example WAKEUP_SIGNAL_linux : WAKEUP_SIGNAL linux_signal_h = 29.
Proof. reflexivity. Qed.

Example WAKEUP_SIGNAL_macos : WAKEUP_SIGNAL macos_signal_h = 23.
Proof. reflexivity. Qed.

(** ** Witnesses and counterexamples *)

(** C1 as stated fails at the entry of [load32] on x86_64: the bytes there
    are [48 8b], the load encoding, and yet [skipLoad] returns 0, not 3. *)
Lemma skipLoad_load32_entry_counterexample :
  target_ok x86_64_target = true
  /\ layout_ok x86_64_target sample_layout = true
  /\ encoding_matches x86_64_target x86_64_text (entry sample_layout Load32)
     = Some true
  /\ documented_skip (cpu x86_64_target) = 3
  /\ result (skipLoad x86_64_target sample_layout (entry sample_layout Load32)
                      x86_64_text)
     = Ok 0
  /\ ~ (forall p : probe,
          encoding_matches x86_64_target x86_64_text (entry sample_layout p)
          = Some true ->
          result (skipLoad x86_64_target sample_layout (entry sample_layout p)
                           x86_64_text)
          = Ok (documented_skip (cpu x86_64_target))).
Proof.
  repeat (split; [reflexivity|]).
  intro H. specialize (H Load32 eq_refl). discriminate H.
Qed.

Lemma skipLoad_decodes_load_window_witness :
  target_ok x86_64_target = true
  /\ layout_ok x86_64_target sample_layout = true
  /\ result (skipLoad x86_64_target sample_layout (entry sample_layout Load)
                      x86_64_text) = Ok 3
  /\ skipLoad x86_64_target sample_layout (entry sample_layout Load32)
              x86_64_text = (Ok 0, []).
Proof.
  pose proof (skipLoad_decodes_load_window x86_64_target sample_layout
                x86_64_text eq_refl eq_refl) as (_ & Hload & H32 & _).
  split; [reflexivity|]. split; [reflexivity|]. split.
  - exact (Hload _ eq_refl eq_refl).
  - exact H32.
Defined.

(** C2 as stated fails on the fallback branch: on little-endian PPC64 the
    window of [load] holds zero bytes, which are no load instruction, and
    [skipLoad] returns 4. *)
Lemma skipLoad_fallback_counterexample :
  target_ok ppc64le_target = true
  /\ layout_ok ppc64le_target sample_layout = true
  /\ in_window (load_entry sample_layout) 0x401000 = true
  /\ read_bytes zero_text 0x401000 4 = Some [x00; x00; x00; x00]
  /\ encoding_matches ppc64le_target zero_text 0x401000 = Some false
  /\ result (skipLoad ppc64le_target sample_layout 0x401000 zero_text) = Ok 4
  /\ result (skipLoad ppc64le_target sample_layout 0x401000 zero_text) <> Ok 0.
Proof.
  repeat (split; [reflexivity|]). discriminate.
Qed.

Lemma skipLoad_mismatch_witness :
  target_ok x86_64_target = true
  /\ layout_ok x86_64_target sample_layout = true
  /\ is_uintptr x86_64_target 0x401001 = true
  /\ in_window (load_entry sample_layout) 0x401001 = true
  /\ encoding_matches x86_64_target x86_64_text 0x401001 = Some false
  /\ result (skipLoad x86_64_target sample_layout 0x401001 x86_64_text) = Ok 0.
Proof.
  repeat (split; [reflexivity|]).
  exact (proj1 (skipLoad_mismatch x86_64_target sample_layout 0x401001
                  x86_64_text eq_refl eq_refl eq_refl eq_refl)
               _ eq_refl eq_refl).
Defined.

Lemma skipLoad_outside_windows_witness :
  target_ok arm_target = true
  /\ layout_ok arm_target sample_layout = true
  /\ is_uintptr arm_target 0x401030 = true
  /\ outside_all_windows sample_layout 0x401030 = true
  /\ skipLoad arm_target sample_layout 0x401030 arm_text = (Ok 0, []).
Proof.
  repeat (split; [reflexivity|]).
  apply skipLoad_outside_windows; reflexivity.
Defined.

Lemma skipLoad_below_load_entry_witness :
  target_ok i386_target = true
  /\ layout_ok i386_target sample_layout = true
  /\ 0 <= 0x400fff < load_entry sample_layout
  /\ usub i386_target 0x400fff (load_entry sample_layout) = 0xffffffff
  /\ skipLoad i386_target sample_layout 0x400fff i386_text = (Ok 0, []).
Proof.
  pose proof (skipLoad_below_load_entry i386_target sample_layout 0x400fff
                i386_text eq_refl eq_refl ltac:(simpl; lia)) as (Hu & _ & Hs).
  repeat (split; [first [reflexivity | simpl; lia]|]).
  exact Hs.
Defined.

Lemma skipLoadArg_spec_witness :
  target_ok aarch64_target = true
  /\ layout_ok aarch64_target sample_layout = true
  /\ is_uintptr aarch64_target 0x401014 = true
  /\ skipLoadArg aarch64_target sample_layout 0x401014 = 4.
Proof.
  repeat (split; [reflexivity|]).
  exact (proj1 (skipLoadArg_spec aarch64_target sample_layout 0x401014
                  eq_refl eq_refl eq_refl)).
Defined.

Lemma probes_return_loaded_value_witness :
  holds x86_64_target sample_stack 0x7ffc0ff8 8 0x7f0012345678
  /\ load x86_64_target 0x7ffc0ff8 sample_stack
     = (Ok 0x7f0012345678, [mkAccess 0x7ffc0ff8 8])
  /\ loadPtr x86_64_target 0x7ffc0ff8 0xdead sample_stack
     = (Ok 0x7f0012345678, [mkAccess 0x7ffc0ff8 8]).
Proof.
  pose proof (probes_return_loaded_value x86_64_target sample_stack 0x7ffc0ff8
                0x7f0012345678 ltac:(lia)) as [Hp _].
  specialize (Hp ltac:(reflexivity) ltac:(reflexivity)).
  destruct Hp as [Hl HlP].
  split; [reflexivity|]. split; [exact Hl|exact (HlP 0xdead)].
Defined.

Lemma lastJavaPCFromStack_ppc64le_witness :
  cpu ppc64le_target = PPC64
  /\ byte_order ppc64le_target = LittleEndian
  /\ lastJavaPCFromStack ppc64le_target 0x7ffc1000 0x7ffc2000 sample_stack
     = (Ok NULL, []).
Proof.
  repeat (split; [reflexivity|]).
  apply lastJavaPCFromStack_ppc64le; reflexivity.
Defined.

Lemma lastJavaPCFromStack_guarded_witness :
  cpu x86_64_target <> AARCH64
  /\ lastJavaPCFromStack x86_64_target 0x7ffc1000 0x7ffc1000 sample_stack
     = (Ok NULL, [])
  /\ accesses (lastJavaPCFromStack x86_64_target 0x7ffc1000 0x7ffc2000
                                   sample_stack)
     = [mkAccess 0x7ffc0ff8 8].
Proof.
  assert (Ha : cpu x86_64_target <> AARCH64) by discriminate.
  assert (Hp : ~ (cpu x86_64_target = PPC64
                  /\ byte_order x86_64_target = LittleEndian))
    by (intros [H _]; discriminate H).
  split; [exact Ha|]. split.
  - exact (proj1 (lastJavaPCFromStack_guarded x86_64_target 0x7ffc1000
                    0x7ffc1000 sample_stack Ha Hp) ltac:(lia)).
  - exact (proj1 (proj2 (lastJavaPCFromStack_guarded x86_64_target 0x7ffc1000
                    0x7ffc2000 sample_stack Ha Hp)) ltac:(lia)).
Defined.

(** * Further properties of safeAccess.h *)

Lemma result_ret_bind_deref {B} (t : target) (m : memory) (a : Z) (n : nat)
      (f : Z -> B) :
  read_bytes m a n = None ->
  (v <- deref t a n ;; ret (f v)) m = (Segv, [mkAccess a n]).
Proof. intro H. unfold bind, deref. rewrite H. reflexivity. Qed.

(** Inside the window of [load], on a target with a decode entry whose bytes
    at [pc] cannot be read, [skipLoad] itself faults. *)
Lemma skipLoad_unreadable (t : target) (L : layout) (pc : Z) (m : memory)
      (d : decode_entry) :
  target_ok t = true -> layout_ok t L = true -> is_uintptr t pc = true ->
  in_window (load_entry L) pc = true ->
  decode_table t = Some d ->
  read_bytes m pc (de_width d) = None ->
  skipLoad t L pc m = (Segv, [mkAccess pc (de_width d)]).
Proof.
  intros Ht HL Hpc Hw Hd Hr.
  destruct (layout_ok_entries t L HL) as [He _].
  unfold skipLoad. rewrite (window_test t _ pc Ht He Hpc), Hw.
  unfold decode_table in Hd.
  destruct (cpu t); inversion Hd; subst d; cbn [de_width] in *;
    apply result_ret_bind_deref; exact Hr.
Qed.

Lemma skipLoad_fallback (t : target) (L : layout) (pc : Z) (m : memory) :
  target_ok t = true -> layout_ok t L = true -> is_uintptr t pc = true ->
  in_window (load_entry L) pc = true ->
  decode_table t = None ->
  skipLoad t L pc m = (Ok (Z.of_nat (sizeof_instruction_t t)), []).
Proof.
  intros Ht HL Hpc Hw Hd. destruct (layout_ok_entries t L HL) as [He _].
  unfold skipLoad. rewrite (window_test t _ pc Ht He Hpc), Hw.
  unfold decode_table in Hd. destruct (cpu t); try discriminate; reflexivity.
Qed.

(** X1.  No false positive: when [skipLoad pc] returns a nonzero count, [pc]
    lies in the 16-byte window of [load]; on a target with a decode entry the
    bytes at [pc] match the entry and the count is the entry's length; on the
    fallback branch the count is [sizeof(instruction_t)]. *)
Theorem skipLoad_nonzero_sound (t : target) (L : layout) (pc : Z) (m : memory)
        (n : Z) :
  target_ok t = true -> layout_ok t L = true -> is_uintptr t pc = true ->
  result (skipLoad t L pc m) = Ok n -> n <> 0 ->
  in_window (load_entry L) pc = true
  /\ match decode_table t with
     | Some d => encoding_matches t m pc = Some true /\ n = de_length d
     | None => n = Z.of_nat (sizeof_instruction_t t)
     end.
Proof.
  intros Ht HL Hpc Hres Hn.
  destruct (in_window (load_entry L) pc) eqn:Hw.
  2:{ rewrite (skipLoad_outside_load_window t L pc m Ht HL Hpc Hw) in Hres.
      inversion Hres. congruence. }
  split; [reflexivity|].
  destruct (decode_table t) as [d|] eqn:Hd.
  - unfold encoding_matches, entry_matches. rewrite Hd.
    destruct (read_bytes m pc (de_width d)) as [bs|] eqn:Hr.
    + rewrite (skipLoad_refines_table t L pc m d bs Ht HL Hpc Hw Hd Hr) in Hres.
      unfold result in Hres. simpl in Hres.
      destruct (Z.land (decode (byte_order t) bs) (de_mask d) =? de_pattern d);
        inversion Hres; [split; reflexivity | congruence].
    + rewrite (skipLoad_unreadable t L pc m d Ht HL Hpc Hw Hd Hr) in Hres.
      discriminate Hres.
  - rewrite (skipLoad_fallback t L pc m Ht HL Hpc Hw Hd) in Hres.
    inversion Hres. reflexivity.
Qed.

(** X2.  The memory footprint of [skipLoad]: it reads nothing outside the
    window of [load] and nothing on the fallback branch; otherwise it makes
    exactly one access, at [pc], of the width of the decode entry, whatever
    the memory holds. *)
Theorem skipLoad_footprint (t : target) (L : layout) (pc : Z) (m : memory) :
  target_ok t = true -> layout_ok t L = true -> is_uintptr t pc = true ->
  accesses (skipLoad t L pc m)
  = match decode_table t with
    | Some d =>
        if in_window (load_entry L) pc then [mkAccess pc (de_width d)] else []
    | None => []
    end.
Proof.
  intros Ht HL Hpc.
  destruct (in_window (load_entry L) pc) eqn:Hw.
  - destruct (decode_table t) as [d|] eqn:Hd.
    + destruct (read_bytes m pc (de_width d)) as [bs|] eqn:Hr.
      * rewrite (skipLoad_refines_table t L pc m d bs Ht HL Hpc Hw Hd Hr).
        reflexivity.
      * rewrite (skipLoad_unreadable t L pc m d Ht HL Hpc Hw Hd Hr).
        reflexivity.
    + rewrite (skipLoad_fallback t L pc m Ht HL Hpc Hw Hd). reflexivity.
  - rewrite (skipLoad_outside_load_window t L pc m Ht HL Hpc Hw).
    destruct (decode_table t); reflexivity.
Qed.

(** X3.  [skipLoad] faults exactly when [pc] is in the window of [load], the
    target has a decode entry, and the bytes the entry inspects at [pc] are
    not all readable.  It never faults outside the window or on the fallback
    branch. *)
Theorem skipLoad_faults_iff (t : target) (L : layout) (pc : Z) (m : memory) :
  target_ok t = true -> layout_ok t L = true -> is_uintptr t pc = true ->
  result (skipLoad t L pc m) = Segv
  <-> in_window (load_entry L) pc = true
      /\ exists d, decode_table t = Some d
                   /\ read_bytes m pc (de_width d) = None.
Proof.
  intros Ht HL Hpc. split.
  - intro Hres.
    destruct (in_window (load_entry L) pc) eqn:Hw.
    2:{ rewrite (skipLoad_outside_load_window t L pc m Ht HL Hpc Hw) in Hres.
        discriminate Hres. }
    destruct (decode_table t) as [d|] eqn:Hd.
    + destruct (read_bytes m pc (de_width d)) as [bs|] eqn:Hr.
      * rewrite (skipLoad_refines_table t L pc m d bs Ht HL Hpc Hw Hd Hr) in Hres.
        discriminate Hres.
      * split; [reflexivity|]. exists d. split; [reflexivity | exact Hr].
    + rewrite (skipLoad_fallback t L pc m Ht HL Hpc Hw Hd) in Hres.
      discriminate Hres.
  - intros (Hw & d & Hd & Hr).
    rewrite (skipLoad_unreadable t L pc m d Ht HL Hpc Hw Hd Hr). reflexivity.
Qed.

(** X4.  The two recoveries never compete: wherever [skipLoadArg pc] is
    nonzero, [skipLoad pc] is 0 and reads nothing; and wherever [pc] is in
    the window of [load], [skipLoadArg pc] is 0. *)
Theorem skipLoad_skipLoadArg_exclusive (t : target) (L : layout) (pc : Z)
        (m : memory) :
  target_ok t = true -> layout_ok t L = true -> is_uintptr t pc = true ->
  (skipLoadArg t L pc <> 0 -> skipLoad t L pc m = (Ok 0, []))
  /\ (in_window (load_entry L) pc = true -> skipLoadArg t L pc = 0).
Proof.
  intros Ht HL Hpc.
  destruct (layout_ok_entries t L HL) as (He & He32 & HeP & N1 & N2 & _).
  assert (E : skipLoadArg t L pc
    = match cpu t with
      | AARCH64 =>
          if in_window (load32_entry L) pc || in_window (loadPtr_entry L) pc
          then 4 else 0
      | _ => 0
      end).
  { unfold skipLoadArg.
    rewrite (window_test t _ pc Ht He32 Hpc), (window_test t _ pc Ht HeP Hpc).
    reflexivity. }
  assert (Hdisj : in_window (load_entry L) pc = true ->
                  in_window (load32_entry L) pc = false
                  /\ in_window (loadPtr_entry L) pc = false).
  { intro Hw. split;
      apply (aligned_windows_disjoint t (load_entry L)); assumption. }
  split.
  - intro Hnz. apply skipLoad_outside_load_window; try assumption.
    destruct (in_window (load_entry L) pc) eqn:Hw; [|reflexivity].
    destruct (Hdisj eq_refl) as [D1 D2]. rewrite E, D1, D2 in Hnz.
    exfalso. apply Hnz. destruct (cpu t); reflexivity.
  - intro Hw. destruct (Hdisj Hw) as [D1 D2]. rewrite E, D1, D2.
    destruct (cpu t); reflexivity.
Qed.

(** ** Which instructions [skipLoad] accepts *)

Lemma byte_to_Z_inj (b b' : byte) : byte_to_Z b = byte_to_Z b' -> b = b'.
Proof.
  unfold byte_to_Z. intro H. apply N2Z.inj in H.
  pose proof (Byte.of_to_N b) as E. rewrite H, Byte.of_to_N in E.
  congruence.
Qed.

(** X5.  On little-endian x86_64, for [pc] in the window of [load],
    [skipLoad pc] returns 3 exactly when the two bytes at [pc] are [48 8b]
    (REX.W and the opcode of [mov r64, r/m64]); the third byte it skips is
    not looked at. *)
Theorem skipLoad_x86_64_bytes (t : target) (L : layout) (pc : Z) (m : memory) :
  target_ok t = true -> layout_ok t L = true -> is_uintptr t pc = true ->
  cpu t = X86_64 -> byte_order t = LittleEndian ->
  in_window (load_entry L) pc = true ->
  result (skipLoad t L pc m) = Ok 3
  <-> m pc = Some x48 /\ m (pc + 1) = Some x8b.
Proof.
  intros Ht HL Hpc Hc Hb Hw.
  destruct (layout_ok_entries t L HL) as [He _].
  unfold skipLoad. rewrite (window_test t _ pc Ht He Hpc), Hw, Hc.
  unfold bind, deref. cbn [read_bytes]. rewrite Hb.
  destruct (m pc) as [b0|]; [|split; [discriminate | intros [H _]; discriminate]].
  destruct (m (pc + 1)) as [b1|];
    [|split; [discriminate | intros [_ H]; discriminate]].
  cbn [decode decode_le ret result fst].
  pose proof (byte_to_Z_range b0) as R0. pose proof (byte_to_Z_range b1) as R1.
  split.
  - intro H.
    destruct (byte_to_Z b0 + 256 * (byte_to_Z b1 + 256 * 0) =? 0x8b48) eqn:E;
      [|discriminate].
    apply Z.eqb_eq in E.
    assert (E0 : byte_to_Z b0 = byte_to_Z x48) by (change (byte_to_Z x48) with 72; lia).
    assert (E1 : byte_to_Z b1 = byte_to_Z x8b) by (change (byte_to_Z x8b) with 139; lia).
    apply byte_to_Z_inj in E0. apply byte_to_Z_inj in E1. subst. split; reflexivity.
  - intros [H0 H1]. inversion H0. inversion H1. reflexivity.
Qed.

Lemma bit_field_land (w m lo n : Z) :
  0 <= lo -> 0 <= n ->
  bit_field (Z.land w m) lo n = Z.land (bit_field w lo n) (bit_field m lo n).
Proof.
  intros Hlo Hn. unfold bit_field.
  rewrite <- !Z.shiftr_div_pow2, <- !Z.land_ones by assumption.
  rewrite Z.shiftr_land. apply Z.bits_inj'. intros i _.
  rewrite !Z.land_spec.
  destruct (Z.testbit (Z.shiftr w lo) i), (Z.testbit (Z.shiftr m lo) i),
    (Z.testbit (Z.ones n) i); reflexivity.
Qed.

Lemma bit_field_idem (w lo n : Z) :
  0 <= n -> Z.land (bit_field w lo n) (Z.ones n) = bit_field w lo n.
Proof.
  intro Hn. rewrite Z.land_ones by assumption. unfold bit_field.
  apply Z.mod_mod. apply Z.pow_nonzero; lia.
Qed.

(** A field the mask covers is the pattern's; a field the mask leaves out is
    zero after masking. *)
Lemma field_masked (w m lo n : Z) :
  0 <= lo -> 0 <= n -> bit_field m lo n = Z.ones n ->
  bit_field (Z.land w m) lo n = bit_field w lo n.
Proof.
  intros Hlo Hn Hm. rewrite bit_field_land, Hm by assumption.
  apply bit_field_idem. assumption.
Qed.

Lemma field_unmasked (w m lo n : Z) :
  0 <= lo -> 0 <= n -> bit_field m lo n = 0 ->
  bit_field (Z.land w m) lo n = 0.
Proof.
  intros Hlo Hn Hm. rewrite bit_field_land, Hm by assumption.
  apply Z.land_0_r.
Qed.

Lemma high_unmasked (w m k : Z) :
  0 <= k -> m / 2 ^ k = 0 -> Z.land w m / 2 ^ k = 0.
Proof.
  intros Hk Hm. rewrite <- Z.shiftr_div_pow2 in * by assumption.
  rewrite Z.shiftr_land, Hm. apply Z.land_0_r.
Qed.

Lemma field_split (x lo n : Z) :
  0 <= lo -> 0 <= n ->
  x / 2 ^ lo = bit_field x lo n + 2 ^ n * (x / 2 ^ (lo + n)).
Proof.
  intros Hlo Hn. unfold bit_field.
  assert (0 < 2 ^ lo) by (apply Z.pow_pos_nonneg; lia).
  assert (0 < 2 ^ n) by (apply Z.pow_pos_nonneg; lia).
  rewrite Z.pow_add_r, <- Z.div_div by lia.
  pose proof (Z.div_mod (x / 2 ^ lo) (2 ^ n) ltac:(lia)). lia.
Qed.

Lemma field_split_at (x lo n hi p : Z) :
  0 <= lo -> 0 <= n -> hi = lo + n -> p = 2 ^ n ->
  x / 2 ^ lo = bit_field x lo n + p * (x / 2 ^ hi).
Proof. intros Hlo Hn -> ->. apply field_split; assumption. Qed.

Lemma div_pow2_0 (x : Z) : x / 2 ^ 0 = x.
Proof. rewrite Z.pow_0_r. apply Z.div_1_r. Qed.

(** The words the aarch64 test accepts: the destination register field
    (bits 0 to 4) is 0 and bits 22 to 31 are those of the 64-bit
    [ldr Xt, [Xn, #imm]]; the base register (bits 5 to 9) and the offset
    (bits 10 to 21) are free. *)
Lemma aarch64_mask_fields (w : Z) :
  Z.land w 0xffc0001f = 0xf9400000
  <-> bit_field w 0 5 = 0 /\ bit_field w 22 10 = 0x3e5.
Proof.
  pose proof (field_masked w 0xffc0001f 0 5 ltac:(lia) ltac:(lia) eq_refl)
    as F0.
  pose proof (field_unmasked w 0xffc0001f 5 17 ltac:(lia) ltac:(lia) eq_refl)
    as F5.
  pose proof (field_masked w 0xffc0001f 22 10 ltac:(lia) ltac:(lia) eq_refl)
    as F22.
  pose proof (high_unmasked w 0xffc0001f 32 ltac:(lia) eq_refl) as F32.
  split.
  - intro H. rewrite H in F0, F22.
    split; [symmetry; exact F0 | symmetry; exact F22].
  - intros [H0 H22]. rewrite H0 in F0. rewrite H22 in F22.
    set (x := Z.land w 0xffc0001f) in *.
    pose proof (field_split_at x 0 5 5 32 ltac:(lia) ltac:(lia) eq_refl eq_refl)
      as S0.
    pose proof (field_split_at x 5 17 22 131072 ltac:(lia) ltac:(lia) eq_refl
                  eq_refl) as S5.
    pose proof (field_split_at x 22 10 32 1024 ltac:(lia) ltac:(lia) eq_refl
                  eq_refl) as S22.
    rewrite div_pow2_0 in S0. lia.
Qed.

(** The words the arm test accepts: bits 25 to 27 are 010 (single data
    transfer with an immediate offset), B (bit 22) is 0 and L (bit 20) is 1
    (a word load), and the destination register (bits 12 to 15) is r0; the
    condition, the P, U and W bits, the base register and the offset are
    free. *)
Lemma arm_mask_fields (w : Z) :
  Z.land w 0x0e50f000 = 0x04100000
  <-> bit_field w 12 4 = 0 /\ bit_field w 20 1 = 1
      /\ bit_field w 22 1 = 0 /\ bit_field w 25 3 = 2.
Proof.
  pose proof (field_unmasked w 0x0e50f000 0 12 ltac:(lia) ltac:(lia) eq_refl)
    as F0.
  pose proof (field_masked w 0x0e50f000 12 4 ltac:(lia) ltac:(lia) eq_refl)
    as F12.
  pose proof (field_unmasked w 0x0e50f000 16 4 ltac:(lia) ltac:(lia) eq_refl)
    as F16.
  pose proof (field_masked w 0x0e50f000 20 1 ltac:(lia) ltac:(lia) eq_refl)
    as F20.
  pose proof (field_unmasked w 0x0e50f000 21 1 ltac:(lia) ltac:(lia) eq_refl)
    as F21.
  pose proof (field_masked w 0x0e50f000 22 1 ltac:(lia) ltac:(lia) eq_refl)
    as F22.
  pose proof (field_unmasked w 0x0e50f000 23 2 ltac:(lia) ltac:(lia) eq_refl)
    as F23.
  pose proof (field_masked w 0x0e50f000 25 3 ltac:(lia) ltac:(lia) eq_refl)
    as F25.
  pose proof (high_unmasked w 0x0e50f000 28 ltac:(lia) eq_refl) as F28.
  split.
  - intro H. rewrite H in F12, F20, F22, F25.
    repeat split; symmetry; assumption.
  - intros (H12 & H20 & H22 & H25).
    rewrite H12 in F12. rewrite H20 in F20. rewrite H22 in F22.
    rewrite H25 in F25.
    set (x := Z.land w 0x0e50f000) in *.
    pose proof (field_split_at x 0 12 12 4096 ltac:(lia) ltac:(lia) eq_refl
                  eq_refl) as S0.
    pose proof (field_split_at x 12 4 16 16 ltac:(lia) ltac:(lia) eq_refl
                  eq_refl) as S12.
    pose proof (field_split_at x 16 4 20 16 ltac:(lia) ltac:(lia) eq_refl
                  eq_refl) as S16.
    pose proof (field_split_at x 20 1 21 2 ltac:(lia) ltac:(lia) eq_refl
                  eq_refl) as S20.
    pose proof (field_split_at x 21 1 22 2 ltac:(lia) ltac:(lia) eq_refl
                  eq_refl) as S21.
    pose proof (field_split_at x 22 1 23 2 ltac:(lia) ltac:(lia) eq_refl
                  eq_refl) as S22.
    pose proof (field_split_at x 23 2 25 4 ltac:(lia) ltac:(lia) eq_refl
                  eq_refl) as S23.
    pose proof (field_split_at x 25 3 28 8 ltac:(lia) ltac:(lia) eq_refl
                  eq_refl) as S25.
    rewrite div_pow2_0 in S0. lia.
Qed.

Lemma skipLoad_mask_test (t : target) (L : layout) (pc : Z) (m : memory)
      (d : decode_entry) (bs : list byte) :
  target_ok t = true -> layout_ok t L = true -> is_uintptr t pc = true ->
  in_window (load_entry L) pc = true ->
  decode_table t = Some d -> de_length d <> 0 ->
  read_bytes m pc (de_width d) = Some bs ->
  result (skipLoad t L pc m) = Ok (de_length d)
  <-> Z.land (decode (byte_order t) bs) (de_mask d) = de_pattern d.
Proof.
  intros Ht HL Hpc Hw Hd Hlen Hr.
  rewrite (skipLoad_refines_table t L pc m d bs Ht HL Hpc Hw Hd Hr).
  unfold result. simpl.
  destruct (Z.land (decode (byte_order t) bs) (de_mask d) =? de_pattern d)
    eqn:E.
  - apply Z.eqb_eq in E. tauto.
  - apply Z.eqb_neq in E. split; [|tauto].
    intro H. inversion H. congruence.
Qed.

(** X6.  On aarch64, for [pc] in the window of [load] and a readable
    instruction word [w] at [pc], [skipLoad pc] returns 4 exactly when bits 0
    to 4 of [w] (the destination register) are 0 and bits 22 to 31 are
    [1111100101] (64-bit [ldr] with an unsigned offset): every base register
    and every offset is accepted. *)
Theorem skipLoad_aarch64_accepts (t : target) (L : layout) (pc : Z)
        (m : memory) (bs : list byte) :
  target_ok t = true -> layout_ok t L = true -> is_uintptr t pc = true ->
  cpu t = AARCH64 ->
  in_window (load_entry L) pc = true ->
  read_bytes m pc (sizeof_instruction_t t) = Some bs ->
  result (skipLoad t L pc m) = Ok 4
  <-> bit_field (decode (byte_order t) bs) 0 5 = 0
      /\ bit_field (decode (byte_order t) bs) 22 10 = 0x3e5.
Proof.
  intros Ht HL Hpc Hc Hw Hr.
  rewrite <- aarch64_mask_fields.
  apply (skipLoad_mask_test t L pc m
           (mkDecodeEntry (sizeof_instruction_t t) 0xffc0001f 0xf9400000 4));
    try assumption.
  - unfold decode_table. rewrite Hc. reflexivity.
  - discriminate.
Qed.

(** X7.  On arm, for [pc] in the window of [load] and a readable instruction
    word [w] at [pc], [skipLoad pc] returns 4 exactly when bits 25 to 27 of
    [w] are [010], bit 22 is 0, bit 20 is 1 and bits 12 to 15 (the destination
    register) are 0: a word [ldr r0, [Rn, #imm]] under any condition, with any
    base register, offset and addressing mode bits. *)
Theorem skipLoad_arm_accepts (t : target) (L : layout) (pc : Z)
        (m : memory) (bs : list byte) :
  target_ok t = true -> layout_ok t L = true -> is_uintptr t pc = true ->
  cpu t = ARM ->
  in_window (load_entry L) pc = true ->
  read_bytes m pc (sizeof_instruction_t t) = Some bs ->
  result (skipLoad t L pc m) = Ok 4
  <-> bit_field (decode (byte_order t) bs) 12 4 = 0
      /\ bit_field (decode (byte_order t) bs) 20 1 = 1
      /\ bit_field (decode (byte_order t) bs) 22 1 = 0
      /\ bit_field (decode (byte_order t) bs) 25 3 = 2.
Proof.
  intros Ht HL Hpc Hc Hw Hr.
  rewrite <- arm_mask_fields.
  apply (skipLoad_mask_test t L pc m
           (mkDecodeEntry (sizeof_instruction_t t) 0x0e50f000 0x04100000 4));
    try assumption.
  - unfold decode_table. rewrite Hc. reflexivity.
  - discriminate.
Qed.

(** ** Further properties of the probes *)

Lemma read_bytes_None_iff (m : memory) (n : nat) :
  forall a,
    read_bytes m a n = None
    <-> exists i, 0 <= i < Z.of_nat n /\ m (a + i) = None.
Proof.
  induction n as [|k IH]; intro a.
  - simpl. split; [discriminate | intros (i & Hi & _); lia].
  - cbn [read_bytes]. split.
    + destruct (m a) as [b|] eqn:Ea.
      * destruct (read_bytes m (a + 1) k) as [bs|] eqn:Er; [discriminate|].
        intros _. apply IH in Er. destruct Er as (i & Hi & Hm).
        exists (1 + i). split; [lia|].
        replace (a + (1 + i)) with (a + 1 + i) by lia. exact Hm.
      * intros _. exists 0. split; [lia|].
        replace (a + 0) with a by lia. exact Ea.
    + intros (i & Hi & Hm).
      destruct (m a) as [b|] eqn:Ea; [|reflexivity].
      assert (Er : read_bytes m (a + 1) k = None).
      { apply IH. exists (i - 1). split.
        - assert (i <> 0) by (intro; subst i;
            replace (a + 0) with a in Hm by lia; congruence). lia.
        - replace (a + 1 + (i - 1)) with (a + i) by lia. exact Hm. }
      rewrite Er. reflexivity.
Qed.

(** X8.  The probes validate nothing: [load32] faults exactly when one of
    the 4 bytes from the address it was given is not readable, and [load] and
    [loadPtr] exactly when one of the [sizeof(void* )] bytes is not; no
    [default_value] changes that. *)
Theorem probes_fault_iff (t : target) (m : memory) (a default_value : Z) :
  (result (load32 t a default_value m) = Segv
   <-> exists i, 0 <= i < 4 /\ m (a + i) = None)
  /\ (result (load t a m) = Segv
      <-> exists i, 0 <= i < Z.of_nat (sizeof_uintptr_t t)
                    /\ m (a + i) = None)
  /\ (result (loadPtr t a default_value m) = Segv
      <-> exists i, 0 <= i < Z.of_nat (sizeof_uintptr_t t)
                    /\ m (a + i) = None).
Proof.
  assert (D : forall n,
    result (deref t a n m) = Segv
    <-> exists i, 0 <= i < Z.of_nat n /\ m (a + i) = None).
  { intro n. rewrite <- read_bytes_None_iff. unfold deref, result.
    destruct (read_bytes m a n); simpl; split;
      try discriminate; reflexivity. }
  split; [exact (D 4%nat)|].
  split; exact (D (sizeof_uintptr_t t)).
Qed.

(** X9.  Whatever the memory holds, a value returned by [load32] is a [u32]
    and a value returned by [load] or [loadPtr] is a [uintptr_t]. *)
Theorem probes_result_range (t : target) (m : memory) (a v default_value : Z) :
  (result (load32 t a default_value m) = Ok v -> 0 <= v < 2 ^ 32)
  /\ (result (load t a m) = Ok v -> 0 <= v < UINTPTR_MODULUS t)
  /\ (result (loadPtr t a default_value m) = Ok v
      -> 0 <= v < UINTPTR_MODULUS t).
Proof.
  assert (D : forall n,
    result (deref t a n m) = Ok v -> 0 <= v < modulus n).
  { intros n H. unfold deref, result in H.
    destruct (read_bytes m a n) as [bs|] eqn:Hr; simpl in H; [|discriminate].
    inversion H. rewrite <- (read_bytes_length _ _ _ _ Hr).
    apply decode_range. }
  split; [exact (D 4%nat)|]. split; exact (D (sizeof_uintptr_t t)).
Qed.

(** ** Further properties of [lastJavaPCFromStack] *)

(** X10.  When [lastJavaPCFromStack] reads (always on aarch64; elsewhere,
    except on little-endian PPC64, when [lastJavaSP < topSP]) and the
    pointer-sized slot that ends at [lastJavaSP] holds [v], it returns [v],
    and that slot is its only access.  On aarch64 this is so for every
    [topSP]. *)
Theorem lastJavaPCFromStack_reads_slot (t : target) (lastJavaSP topSP : Z)
        (m : memory) (v : Z) :
  Z.of_nat (sizeof_uintptr_t t) <= lastJavaSP < UINTPTR_MODULUS t ->
  0 <= v < UINTPTR_MODULUS t ->
  holds t m (lastJavaSP - Z.of_nat (sizeof_uintptr_t t)) (sizeof_uintptr_t t) v ->
  cpu t = AARCH64
  \/ (~ (cpu t = PPC64 /\ byte_order t = LittleEndian) /\ lastJavaSP < topSP) ->
  lastJavaPCFromStack t lastJavaSP topSP m
  = (Ok v, [mkAccess (lastJavaSP - Z.of_nat (sizeof_uintptr_t t))
                     (sizeof_uintptr_t t)]).
Proof.
  intros Hsp Hv Hh Hread.
  assert (Hslot : ptr_index t lastJavaSP (-1)
                  = lastJavaSP - Z.of_nat (sizeof_uintptr_t t)).
  { unfold ptr_index.
    replace (lastJavaSP + -1 * Z.of_nat (sizeof_uintptr_t t))
      with (lastJavaSP - Z.of_nat (sizeof_uintptr_t t)) by lia.
    apply Z.mod_small. lia. }
  assert (Hd : deref t (ptr_index t lastJavaSP (-1)) (sizeof_uintptr_t t) m
               = (Ok v, [mkAccess (lastJavaSP - Z.of_nat (sizeof_uintptr_t t))
                                  (sizeof_uintptr_t t)])).
  { rewrite Hslot. apply deref_holds; assumption. }
  unfold lastJavaPCFromStack.
  destruct Hread as [Ha | [Hp Hlt]].
  - rewrite Ha. exact Hd.
  - apply Z.ltb_lt in Hlt. rewrite Hlt.
    destruct (cpu t) eqn:Ec; destruct (byte_order t) eqn:Eb; try exact Hd.
    exfalso. apply Hp. split; reflexivity.
Qed.

(** X11.  The read of [lastJavaPCFromStack] is a plain dereference, not a
    probe: when it reads (as in X10) and a byte of the slot below
    [lastJavaSP] is not readable, the call faults. *)
Theorem lastJavaPCFromStack_faults (t : target) (lastJavaSP topSP : Z)
        (m : memory) (i : Z) :
  Z.of_nat (sizeof_uintptr_t t) <= lastJavaSP < UINTPTR_MODULUS t ->
  0 <= i < Z.of_nat (sizeof_uintptr_t t) ->
  m (lastJavaSP - Z.of_nat (sizeof_uintptr_t t) + i) = None ->
  cpu t = AARCH64
  \/ (~ (cpu t = PPC64 /\ byte_order t = LittleEndian) /\ lastJavaSP < topSP) ->
  result (lastJavaPCFromStack t lastJavaSP topSP m) = Segv.
Proof.
  intros Hsp Hi Hm Hread.
  assert (Hslot : ptr_index t lastJavaSP (-1)
                  = lastJavaSP - Z.of_nat (sizeof_uintptr_t t)).
  { unfold ptr_index.
    replace (lastJavaSP + -1 * Z.of_nat (sizeof_uintptr_t t))
      with (lastJavaSP - Z.of_nat (sizeof_uintptr_t t)) by lia.
    apply Z.mod_small. lia. }
  assert (Hd : result (deref t (ptr_index t lastJavaSP (-1))
                             (sizeof_uintptr_t t) m) = Segv).
  { rewrite Hslot. unfold deref.
    assert (Hr : read_bytes m (lastJavaSP - Z.of_nat (sizeof_uintptr_t t))
                            (sizeof_uintptr_t t) = None)
      by (apply read_bytes_None_iff; exists i; split; assumption).
    rewrite Hr. reflexivity. }
  unfold lastJavaPCFromStack.
  destruct Hread as [Ha | [Hp Hlt]].
  - rewrite Ha. exact Hd.
  - apply Z.ltb_lt in Hlt. rewrite Hlt.
    destruct (cpu t) eqn:Ec; destruct (byte_order t) eqn:Eb; try exact Hd.
    exfalso. apply Hp. split; reflexivity.
Qed.

(** * Properties of the DDD macros of os.h *)

Lemma count_percent_app (a b : string) :
  count_percent (a ++ b)%string = (count_percent a + count_percent b)%nat.
Proof.
  induction a as [|c a IH]; simpl; [reflexivity|]. rewrite IH. lia.
Qed.

Lemma passed_nonempty (e : cpp_env) (wa : list string) :
  (1 <= length (passed e wa))%nat.
Proof. unfold passed, VA_ARGS. destruct (expand_args e wa); simpl; lia. Qed.

(** Runs [tac] on each of the cases: no argument, one argument, ..., [n]
    arguments or more. *)
Ltac split_args va n tac :=
  lazymatch n with
  | O => tac
  | S ?k => destruct va as [|? va]; [tac | split_args va k tac]
  end.

(** X12.  [DDD_T_NUM_ARGS(...)] is replaced by the number of arguments that
    its variable arguments make once they are macro-expanded, for up to 5 of
    them; an empty argument list counts as 1; from six arguments on the
    replacement is the sixth argument itself. *)
Theorem DDD_T_NUM_ARGS_counts (e : cpp_env) (wa : list string) :
  ((length (passed e wa) <= 5)%nat ->
   DDD_T_NUM_ARGS e wa = Some (numeral (length (passed e wa))))
  /\ (expand_args e wa = [] -> DDD_T_NUM_ARGS e wa = Some "1"%string)
  /\ ((6 <= length (passed e wa))%nat ->
      DDD_T_NUM_ARGS e wa = nth_error (passed e wa) 5).
Proof.
  split; [|split].
  - pose proof (passed_nonempty e wa) as Hne. unfold DDD_T_NUM_ARGS.
    revert Hne. generalize (passed e wa) as va. intro va.
    split_args va 6%nat ltac:(simpl length; intros; try lia; reflexivity).
  - intro H. unfold DDD_T_NUM_ARGS, passed. rewrite H. reflexivity.
  - unfold DDD_T_NUM_ARGS. generalize (passed e wa) as va. intro va.
    split_args va 6%nat ltac:(simpl length; intros; try lia; reflexivity).
Qed.

(** X13.  [DDD_T_NUM_ARG_PAIRS(...)] is replaced by half the number of
    arguments that its variable arguments make once they are macro-expanded,
    rounded up, for up to 12 of them; an empty argument list counts as one
    argument; from thirteen arguments on the replacement is the thirteenth
    argument itself. *)
Theorem DDD_T_NUM_ARG_PAIRS_counts (e : cpp_env) (wa : list string) :
  ((length (passed e wa) <= 12)%nat ->
   DDD_T_NUM_ARG_PAIRS e wa
   = Some (numeral ((length (passed e wa) + 1) / 2)))
  /\ (expand_args e wa = [] -> DDD_T_NUM_ARG_PAIRS e wa = Some "1"%string)
  /\ ((13 <= length (passed e wa))%nat ->
      DDD_T_NUM_ARG_PAIRS e wa = nth_error (passed e wa) 12).
Proof.
  split; [|split].
  - pose proof (passed_nonempty e wa) as Hne. unfold DDD_T_NUM_ARG_PAIRS.
    revert Hne. generalize (passed e wa) as va. intro va.
    split_args va 13%nat ltac:(simpl length; intros; try lia; reflexivity).
  - intro H. unfold DDD_T_NUM_ARG_PAIRS, passed. rewrite H. reflexivity.
  - unfold DDD_T_NUM_ARG_PAIRS. generalize (passed e wa) as va. intro va.
    split_args va 13%nat ltac:(simpl length; intros; try lia; reflexivity).
Qed.

Lemma DDD_FMT_CST_cases (h : inttypes_h) (f v : string) :
  (is_fmt f = true
   /\ exists m c, DDD_FMT h f = Some m /\ DDD_CST f v = Some c
                  /\ (count_percent (PRId64 h) = 0%nat ->
                      count_percent (PRIxPTR h) = 0%nat ->
                      count_percent m = 1%nat))
  \/ (is_fmt f = false /\ DDD_FMT h f = None).
Proof.
  unfold is_fmt, DDD_FMT, DDD_CST, INT64_FORMAT, PTR_FORMAT.
  destruct (f =? "I")%string;
    [|destruct (f =? "P")%string; [|destruct (f =? "S")%string]];
    simpl; try (right; split; reflexivity); left; (split; [reflexivity|]);
    eexists; eexists; (split; [reflexivity|]); (split; [reflexivity|]);
    intros H1 H2; simpl; try rewrite H1; try rewrite H2; reflexivity.
Qed.

(** Decides one format/value pair in the goal and the hypotheses. *)
Ltac fmt_case h f v :=
  let Hf := fresh "Hf" in
  let m := fresh "m" in
  let c := fresh "c" in
  let Em := fresh "Em" in
  let Ec := fresh "Ec" in
  let Hp := fresh "Hp" in
  destruct (DDD_FMT_CST_cases h f v) as [(Hf & m & c & Em & Ec & Hp) | (Hf & Em)];
  rewrite ?Hf, ?Em, ?Ec in *; cbn [obind andb of_call] in *.

Lemma DDD_T_passed (e : cpp_env) (h : inttypes_h) (wa : list string) :
  DDD_T e h wa = DDD_T_on h (passed e wa).
Proof. reflexivity. Qed.

(** With nine arguments or more, no name leads to a [printf] call. *)
Lemma DDD_T_invoke_many (h : inttypes_h) (name : string)
      (a1 a2 a3 a4 a5 a6 a7 a8 a9 : string) (rest : list string)
      (c : printf_call) :
  DDD_T_invoke h name (a1 :: a2 :: a3 :: a4 :: a5 :: a6 :: a7 :: a8 :: a9 :: rest)
  <> Printf c.
Proof.
  unfold DDD_T_invoke, of_tokens.
  repeat match goal with
         | |- context [if ?b then _ else _] => destruct b
         end;
    repeat match goal with
           | |- context [match ?o with Some _ => _ | None => _ end] =>
               destruct o
           end; discriminate.
Qed.

(** Brings [DDD_T_on] at a list of known length to the invocation it makes. *)
Ltac run_DDD_T_on :=
  unfold DDD_T_on; cbn [app nth_error length format_value_pairs];
  unfold DDD_T_invoke;
  cbn [String.eqb Ascii.eqb Bool.eqb andb append of_tokens].



(** Splits a hypothesis [Forall P (a1 :: ... :: an :: rest)] into its parts. *)
Ltac split_Forall :=
  repeat match goal with
         | H : Forall _ (_ :: _) |- _ =>
             let Hx := fresh "Hv" in
             let Hr := fresh "Hr" in
             apply Forall_cons_iff in H; destruct H as [Hx Hr]
         end.

(** Closes the goal of X15 for one successful expansion. *)
Ltac count_format H1 H2 :=
  match goal with
  | H : Printf _ = Printf ?c |- _ => injection H as H; subst c
  end;
  cbn [pf_format pf_args length];
  repeat match goal with
         | Hp : count_percent (PRId64 _) = 0%nat -> _ |- _ =>
             specialize (Hp H1 H2)
         end;
  repeat (progress (cbn [count_percent append Ascii.eqb Bool.eqb];
                    rewrite ?count_percent_app));
  repeat match goal with
         | Hv : count_percent ?x = _ |- _ => is_var x; rewrite Hv; clear Hv
         end;
  split; reflexivity.

Lemma DDD_T_on_format (h : inttypes_h) (va : list string) (c : printf_call) :
  count_percent (PRId64 h) = 0%nat ->
  count_percent (PRIxPTR h) = 0%nat ->
  Forall (fun a => count_percent a = 0%nat) va ->
  DDD_T_on h va = Printf c ->
  count_percent (pf_format c) = length (pf_args c)
  /\ length (pf_args c) = (2 + length va / 2)%nat.
Proof.
  intros H1 H2 Hva Hc. revert Hva Hc.
  split_args va 9%nat ltac:(idtac).
  1-9: run_DDD_T_on; intros Hva Hc; try discriminate Hc; split_Forall.
  - unfold DDD_T_1 in Hc. fmt_case h s s0; try discriminate Hc.
    count_format H1 H2.
  - unfold DDD_T_2 in Hc.
    fmt_case h s s0; [fmt_case h s1 s2|]; try discriminate Hc.
    count_format H1 H2.
  - unfold DDD_T_3 in Hc.
    fmt_case h s s0; [fmt_case h s1 s2; [fmt_case h s3 s4|]|];
      try discriminate Hc.
    count_format H1 H2.
  - unfold DDD_T_4 in Hc.
    fmt_case h s s0;
      [fmt_case h s1 s2; [fmt_case h s3 s4; [fmt_case h s5 s6|]|]|];
      try discriminate Hc.
    count_format H1 H2.
  - intros _ Hc. exfalso. unfold DDD_T_on in Hc.
    destruct (nth_error _ 12); [|discriminate Hc].
    exact (DDD_T_invoke_many _ _ _ _ _ _ _ _ _ _ _ _ _ Hc).
Qed.

(** X15.  When [DDD_T(...)] is replaced by a [printf] call, and neither the
    arguments it passes on (the written ones, macro-expanded, which is what
    [#] spells out) nor the two [<inttypes.h>] macros contain a [%], the
    format has exactly as many [%] as the call has arguments after the
    format: two (for [__func__] and [__LINE__]) and one for each
    format/value pair. *)
Theorem DDD_T_format_matches_args (e : cpp_env) (h : inttypes_h)
        (wa : list string) (c : printf_call) :
  count_percent (PRId64 h) = 0%nat ->
  count_percent (PRIxPTR h) = 0%nat ->
  Forall (fun a => count_percent a = 0%nat) (passed e wa) ->
  DDD_T e h wa = Printf c ->
  count_percent (pf_format c) = length (pf_args c)
  /\ length (pf_args c) = (2 + length (passed e wa) / 2)%nat.
Proof. rewrite DDD_T_passed. apply DDD_T_on_format. Qed.

(** X16.  The two families are interchangeable: for every argument list
    [DDD_D(...)] has the same replacement as [DDD_T(...)], and none where
    [DDD_T(...)] has none. *)
Theorem DDD_D_expands_as_DDD_T (e : cpp_env) (h : inttypes_h)
        (wa : list string) :
  DDD_D e h wa = DDD_T e h wa.
Proof.
  unfold DDD_D, DDD_T, DDD_D_NUM_ARG_PAIRS, DDD_T_NUM_ARG_PAIRS,
    DDD_D_NUM_ARG_PAIRS_IMPL, DDD_T_NUM_ARG_PAIRS_IMPL.
  destruct (nth_error _ 12) as [n|]; [|reflexivity].
  unfold DDD_D_invoke, DDD_T_invoke, DDD_D_MACRO_CONCAT, DDD_T_MACRO_CONCAT,
    DDD_D_PASTE, DDD_T_PASTE.
  cbn [String.eqb Ascii.eqb Bool.eqb andb append].
  reflexivity.
Qed.

(** X17.  From thirteen passed arguments on, the thirteenth decides what
    [DDD_T(...)] is replaced by, because it is pasted behind [DDD_T_]: if it
    is [NUM_ARGS] or [NUM_ARGS_IMPL] the replacement is the sixth argument,
    if it is [NUM_ARG_PAIRS] or [NUM_ARG_PAIRS_IMPL] the thirteenth, and
    otherwise there is none. *)
Theorem DDD_T_thirteenth_argument (e : cpp_env) (h : inttypes_h)
        (wa : list string) (a6 a13 : string) :
  nth_error (passed e wa) 5 = Some a6 ->
  nth_error (passed e wa) 12 = Some a13 ->
  DDD_T e h wa
  = (if (a13 =? "NUM_ARGS") || (a13 =? "NUM_ARGS_IMPL") then Tokens a6
     else if (a13 =? "NUM_ARG_PAIRS") || (a13 =? "NUM_ARG_PAIRS_IMPL")
          then Tokens a13
          else Ill_formed)%string.
Proof.
  rewrite DDD_T_passed. generalize (passed e wa) as va. intro va.
  split_args va 13%nat ltac:(try (intros _ H; discriminate H)).
  cbn [nth_error]. intros H6 H13. injection H6 as ->. injection H13 as ->.
  run_DDD_T_on.
  repeat match goal with
         | |- context [(a13 =? ?k)%string] =>
             let E := fresh "E" in
             destruct (a13 =? k)%string eqn:E;
             [apply String.eqb_eq in E; subst a13; reflexivity|]
         end.
  reflexivity.
Qed.

(** A value whose spelling contains [%] puts one more [%] into the format
    than there are arguments. *)
Example DDD_T_percent_in_value :
  DDD_T no_macros lp64_inttypes_h ["I"; "a % b"]%string
  = Printf (mkPrintf ("DDD %s:%d a % b:%ld" ++ newline)%string
                     ["__func__"; "__LINE__"; "uint64_t(a % b)"]%string).
Proof. reflexivity. Qed.

(** One written argument that is a macro for two counts as two. *)
Example DDD_T_NUM_ARGS_expanded :
  DDD_T_NUM_ARGS ab_env ["AB"]%string = Some "2"%string
  /\ DDD_T ab_env lp64_inttypes_h ["I"; "AB"]%string = Ill_formed
  /\ DDD_T_NUM_ARGS no_macros ["AB"]%string = Some "1"%string.
Proof. repeat split. Qed.

(** ** Witnesses of the further properties *)

Lemma skipLoad_nonzero_sound_witness :
  result (skipLoad x86_64_target sample_layout 0x401000 x86_64_text) = Ok 3
  /\ in_window (load_entry sample_layout) 0x401000 = true
  /\ encoding_matches x86_64_target x86_64_text 0x401000 = Some true.
Proof.
  split; [reflexivity|].
  destruct (skipLoad_nonzero_sound x86_64_target sample_layout 0x401000
              x86_64_text 3 eq_refl eq_refl eq_refl eq_refl ltac:(discriminate))
    as [Hw [Hm _]].
  split; [exact Hw | exact Hm].
Defined.

Lemma skipLoad_footprint_witness :
  accesses (skipLoad i386_target sample_layout 0x401000 i386_text)
  = [mkAccess 0x401000 1].
Proof.
  exact (skipLoad_footprint i386_target sample_layout 0x401000 i386_text
           eq_refl eq_refl eq_refl).
Defined.

Lemma skipLoad_faults_iff_witness :
  read_bytes unmapped 0x401000 2 = None
  /\ result (skipLoad x86_64_target sample_layout 0x401000 unmapped) = Segv.
Proof.
  split; [reflexivity|].
  apply (proj2 (skipLoad_faults_iff x86_64_target sample_layout 0x401000
                  unmapped eq_refl eq_refl eq_refl)).
  split; [reflexivity|].
  exists (mkDecodeEntry 2 0xffff 0x8b48 3). split; reflexivity.
Defined.

Lemma skipLoad_skipLoadArg_exclusive_witness :
  skipLoadArg aarch64_target sample_layout 0x401014 = 4
  /\ skipLoad aarch64_target sample_layout 0x401014 aarch64_text = (Ok 0, []).
Proof.
  split; [reflexivity|].
  apply (proj1 (skipLoad_skipLoadArg_exclusive aarch64_target sample_layout
                  0x401014 aarch64_text eq_refl eq_refl eq_refl)).
  discriminate.
Defined.

Lemma skipLoad_x86_64_bytes_witness :
  x86_64_text 0x401000 = Some x48 /\ x86_64_text 0x401001 = Some x8b
  /\ result (skipLoad x86_64_target sample_layout 0x401000 x86_64_text) = Ok 3.
Proof.
  split; [reflexivity|]. split; [reflexivity|].
  apply (proj2 (skipLoad_x86_64_bytes x86_64_target sample_layout 0x401000
                  x86_64_text eq_refl eq_refl eq_refl eq_refl eq_refl eq_refl)).
  split; reflexivity.
Defined.

Lemma skipLoad_aarch64_accepts_witness :
  read_bytes aarch64_text 0x401000 4 = Some [x00; x00; x40; xf9]
  /\ result (skipLoad aarch64_target sample_layout 0x401000 aarch64_text)
     = Ok 4.
Proof.
  split; [reflexivity|].
  apply (proj2 (skipLoad_aarch64_accepts aarch64_target sample_layout 0x401000
                  aarch64_text [x00; x00; x40; xf9]
                  eq_refl eq_refl eq_refl eq_refl eq_refl eq_refl)).
  split; reflexivity.
Defined.

Lemma skipLoad_arm_accepts_witness :
  read_bytes arm_text 0x401000 4 = Some [x00; x00; x90; xe5]
  /\ result (skipLoad arm_target sample_layout 0x401000 arm_text) = Ok 4.
Proof.
  split; [reflexivity|].
  apply (proj2 (skipLoad_arm_accepts arm_target sample_layout 0x401000
                  arm_text [x00; x00; x90; xe5]
                  eq_refl eq_refl eq_refl eq_refl eq_refl eq_refl)).
  repeat split.
Defined.

Lemma lastJavaPCFromStack_reads_slot_witness :
  holds x86_64_target sample_stack (0x7ffc1000 - 8) 8 0x7f0012345678
  /\ lastJavaPCFromStack x86_64_target 0x7ffc1000 0x7ffc2000 sample_stack
     = (Ok 0x7f0012345678, [mkAccess 0x7ffc0ff8 8]).
Proof.
  split; [reflexivity|].
  apply (lastJavaPCFromStack_reads_slot x86_64_target 0x7ffc1000 0x7ffc2000
           sample_stack 0x7f0012345678).
  - split; [simpl; lia | reflexivity].
  - split; [lia | reflexivity].
  - reflexivity.
  - right. split; [intros [H _]; discriminate H | lia].
Defined.

Lemma lastJavaPCFromStack_faults_witness :
  unmapped (0x7ffc1000 - 8 + 0) = None
  /\ result (lastJavaPCFromStack aarch64_target 0x7ffc1000 0 unmapped)
     = Segv.
Proof.
  split; [reflexivity|].
  apply (lastJavaPCFromStack_faults aarch64_target 0x7ffc1000 0 unmapped 0).
  - split; [simpl; lia | reflexivity].
  - simpl. lia.
  - reflexivity.
  - left. reflexivity.
Defined.

Lemma DDD_T_format_matches_args_witness :
  exists c,
    DDD_T no_macros lp64_inttypes_h ["I"; "x"; "P"; "ptr"]%string = Printf c
    /\ count_percent (pf_format c) = length (pf_args c)
    /\ length (pf_args c) = 4%nat.
Proof.
  eexists. split; [reflexivity|].
  apply (DDD_T_format_matches_args no_macros lp64_inttypes_h
           ["I"; "x"; "P"; "ptr"]%string).
  - reflexivity.
  - reflexivity.
  - repeat constructor.
  - reflexivity.
Defined.

Lemma DDD_T_thirteenth_argument_witness :
  DDD_T no_macros lp64_inttypes_h
        ["a1"; "a2"; "a3"; "a4"; "a5"; "a6"; "a7"; "a8"; "a9"; "a10"; "a11";
         "a12"; "NUM_ARGS"]%string
  = Tokens "a6".
Proof.
  exact (DDD_T_thirteenth_argument no_macros lp64_inttypes_h
           ["a1"; "a2"; "a3"; "a4"; "a5"; "a6"; "a7"; "a8"; "a9"; "a10"; "a11";
            "a12"; "NUM_ARGS"]%string "a6" "NUM_ARGS" eq_refl eq_refl).
Defined.
